(** * Haven Windows backend: the route handlers of [src/index.js]

    The server is a set of Express route handlers over three Mongoose models
    ([Category], [Promo], [Gallery]).  Each handler is embedded as a function
    from the store to the store and a response.  The store client (Mongoose
    over MongoDB) is an external library; the operations the handlers call are
    modelled here on in-memory collections, following the documented behaviour
    of the calls as they are written in the source (options included).

    Conventions of the model:
    - a collection is the list of its documents in natural (insertion) order;
    - request bodies and stored documents carry the schema's paths only
      (Mongoose is strict: other keys are dropped), each path being absent
      ([None]) or a value of the declared type;
    - [new Date()] is an input: a handler that stamps one document takes the
      reading [now], one that stamps several takes [clock], whose [k]-th
      reading stamps the [k]-th document;
    - [error.message] is kept as the structured [Error] it comes from;
    - an ObjectId is drawn from the store's counter when a document or an
      embedded product is written, so that it is fresh;
    - the version key is left out. *)

From Stdlib Require Import String Ascii List NArith ZArith Bool Lia.
From Stdlib Require Import Permutation Sorted DecimalString.
From Corelib Require PrimFloat.
Import ListNotations.
Open Scope string_scope.
Open Scope list_scope.

Set Implicit Arguments.

(** ** Values *)

Definition ObjectId := N.
Definition Time := N.

(** [mongoose.Schema.Types.Mixed]: any JSON value, as [express.json()] parsed
    it; a number is an IEEE 754 double. *)
#[local] Unset Elimination Schemes.
Inductive Mixed : Type :=
| MNull
| MBool (b : bool)
| MNum (x : PrimFloat.float)
| MStr (s : string)
| MArr (l : list Mixed)
| MObj (kv : list (string * Mixed)).
#[local] Set Elimination Schemes.

(** The elements of [categorySchema.products]: the schema's paths and the
    [_id] every subdocument has once it is cast ([p__id]; a request may name
    it, and it is kept then). *)
Record Product : Type := mkProduct {
  p__id : option ObjectId;
  p_id : option string;
  p_title : option string;
  p_description : option string;
  p_longDescription : option string;
  p_image : option string;
  p_specs : option Mixed
}.

(** The paths of [categorySchema]. *)
Record CategoryFields : Type := mkCategory {
  c_id : option string;
  c_type : option string;
  c_title : option string;
  c_description : option string;
  c_image : option string;
  c_products : option (list Product)
}.

(** The paths of [promoSchema]. *)
Record PromoFields : Type := mkPromo {
  pr_tagText : option string;
  pr_title : option string;
  pr_description : option string;
  pr_highlightText : option string;
  pr_buttonText : option string;
  pr_buttonLink : option string
}.

(** The paths of [gallerySchema]. *)
Record GalleryFields : Type := mkGallery {
  g_url : option string;
  g_title : option string;
  g_location : option string;
  g_category : option string
}.

(** A stored document: the schema's paths, the store's identifier and the two
    stamps of [{ timestamps: true }]. *)
Record Doc (F : Type) : Type := mkDoc {
  _id : ObjectId;
  fields : F;
  createdAt : Time;
  updatedAt : Time
}.

Abbreviation CategoryDoc := (Doc CategoryFields).
Abbreviation PromoDoc := (Doc PromoFields).
Abbreviation GalleryDoc := (Doc GalleryFields).

Record Store : Type := mkStore {
  categories : list CategoryDoc;
  promos : list PromoDoc;
  galleries : list GalleryDoc;
  next_oid : ObjectId
}.

Definition set_categories (l : list CategoryDoc) (st : Store) : Store :=
  mkStore l (promos st) (galleries st) (next_oid st).
Definition set_promos (l : list PromoDoc) (st : Store) : Store :=
  mkStore (categories st) l (galleries st) (next_oid st).
Definition set_galleries (l : list GalleryDoc) (st : Store) : Store :=
  mkStore (categories st) (promos st) l (next_oid st).
Definition bump_oid (st : Store) : Store :=
  mkStore (categories st) (promos st) (galleries st) (N.succ (next_oid st)).
Definition take_oids (n : N) (st : Store) : Store :=
  mkStore (categories st) (promos st) (galleries st) (next_oid st + n)%N.

(** ** Errors, promises and responses *)

(** A schema path: top level, or inside the [k]-th element of [products]. *)
Inductive Path : Type :=
| Top (name : string)
| InProduct (k : nat) (name : string).

Inductive Error : Type :=
| ValidationError (paths : list Path)
| DuplicateKey (path : string) (value : string)
| CastError (value : string)
| TypeError (message : string).

Inductive Outcome (A : Type) : Type :=
| Resolved (a : A)
| Rejected (e : Error).
Arguments Rejected {A} e.

(** An awaited store call: it may write to the store and then resolves or
    rejects.  What was written before a rejection stays written. *)
Definition Async (A : Type) : Type := Store -> Store * Outcome A.

Definition ret {A} (a : A) : Async A := fun st => (st, Resolved a).
Definition throw {A} (e : Error) : Async A := fun st => (st, Rejected e).
Definition bind {A B} (m : Async A) (k : A -> Async B) : Async B :=
  fun st =>
    match m st with
    | (st', Resolved a) => k a st'
    | (st', Rejected e) => (st', Rejected e)
    end.

Notation "x <- m ;; k" := (bind m (fun x => k))
  (at level 61, m at next level, right associativity).
Notation "m ;;; k" := (bind m (fun _ => k))
  (at level 61, right associativity).

Inductive Body : Type :=
| BCategories (l : list CategoryDoc)
| BCategory (d : CategoryDoc)
| BMessage (message : string)          (* { success: true, message } *)
| BSuccess                              (* { success: true } *)
| BCount (count : nat)                  (* { success: true, count } *)
| BPromoDoc (d : PromoDoc)
| BPromoPlain (p : PromoFields)         (* a plain object, no _id, no stamps *)
| BGalleryItems (l : list GalleryDoc)
| BGalleryItem (d : GalleryDoc)
| BError (e : Error).                   (* { error: error.message } *)

Record Response : Type := mkResponse {
  status : N;
  body : Body
}.

Definition Handler := Store -> Store * Response.

(** [try { ... } catch (error) { res.status(500).json({ error: error.message }) }] *)
Definition try_catch (m : Async Response) : Handler :=
  fun st =>
    match m st with
    | (st', Resolved r) => (st', r)
    | (st', Rejected e) => (st', mkResponse 500 (BError e))
    end.

Definition json (b : Body) : Async Response := ret (mkResponse 200 b).
Definition status_json (code : N) (b : Body) : Async Response := ret (mkResponse code b).

(** ** Schema validation *)

Definition is_nil {A} (l : list A) : bool :=
  match l with [] => true | _ => false end.

Definition opt_eqb (a b : option string) : bool :=
  match a, b with
  | Some x, Some y => String.eqb x y
  | None, None => true
  | _, _ => false
  end.

(** [required: true] on a String path: present and not the empty string. *)
Definition required_ok (v : option string) : bool :=
  match v with
  | Some s => negb (String.eqb s "")
  | None => false
  end.

(** [enum: ['windows', 'doors']]; an absent value is not checked. *)
Definition type_enum : list string := ["windows"; "doors"].

Definition enum_ok (v : option string) : bool :=
  match v with
  | Some s => existsb (String.eqb s) type_enum
  | None => true
  end.

Definition check (ok : bool) (p : Path) : list Path := if ok then [] else [p].

Definition product_errors (k : nat) (p : Product) : list Path :=
  check (required_ok (p_id p)) (InProduct k "id")
  ++ check (required_ok (p_title p)) (InProduct k "title").

Fixpoint products_errors (k : nat) (l : list Product) : list Path :=
  match l with
  | [] => []
  | p :: t => product_errors k p ++ products_errors (S k) t
  end.

Definition opt_products_errors (v : option (list Product)) : list Path :=
  match v with
  | Some l => products_errors 0 l
  | None => []
  end.

(** Document validation of [categorySchema] (on [create]). *)
Definition categorySchema_errors (c : CategoryFields) : list Path :=
  check (required_ok (c_id c)) (Top "id")
  ++ check (required_ok (c_type c) && enum_ok (c_type c)) (Top "type")
  ++ check (required_ok (c_title c)) (Top "title")
  ++ opt_products_errors (c_products c).

Definition present {A} (v : option A) : bool :=
  match v with Some _ => true | None => false end.

(** Update validation ([runValidators: true]): the same validators, but only
    on the paths the update names. *)
Definition categorySchema_update_errors (u : CategoryFields) : list Path :=
  check (negb (present (c_id u)) || required_ok (c_id u)) (Top "id")
  ++ check (negb (present (c_type u))
            || (required_ok (c_type u) && enum_ok (c_type u))) (Top "type")
  ++ check (negb (present (c_title u)) || required_ok (c_title u)) (Top "title")
  ++ opt_products_errors (c_products u).

(** Document validation of [gallerySchema]. *)
Definition gallerySchema_errors (g : GalleryFields) : list Path :=
  check (required_ok (g_url g)) (Top "url")
  ++ check (required_ok (g_title g)) (Top "title")
  ++ check (required_ok (g_location g)) (Top "location").

Definition category_valid (c : CategoryFields) : bool := is_nil (categorySchema_errors c).
Definition gallery_valid (g : GalleryFields) : bool := is_nil (gallerySchema_errors g).

(** ** Schema defaults *)

Definition default {A} (d : A) (v : option A) : option A :=
  match v with Some _ => v | None => Some d end.

(** [minimize] (on by default): what is stored and serialized of a value
    leaves out the keys whose value is an object left without keys; an
    object that is an element of an array is kept even when empty. *)
Fixpoint minimize (array_child : bool) (m : Mixed) {struct m} : option Mixed :=
  match m with
  | MObj kv =>
      let kept :=
        (fix keys (l : list (string * Mixed)) : list (string * Mixed) :=
           match l with
           | [] => []
           | (k, v) :: t =>
               match minimize false v with
               | Some v' => (k, v') :: keys t
               | None => keys t
               end
           end) kv in
      if is_nil kept && negb array_child then None else Some (MObj kept)
  | MArr l =>
      Some (MArr ((fix elements (l : list Mixed) : list Mixed :=
                     match l with
                     | [] => []
                     | v :: t =>
                         match minimize true v with
                         | Some v' => v' :: elements t
                         | None => elements t
                         end
                     end) l))
  | _ => Some m
  end.

(** [specs: { type: Mixed, default: {} }]: the default is an empty object,
    which [minimize] leaves out, as it does a given value without keys. *)
Definition stored_specs (v : option Mixed) : option Mixed :=
  match v with
  | Some m => minimize false m
  | None => None
  end.

(** Casting an element of [products]: the subdocument gets an [_id] unless
    the element names one. *)
Definition cast_product (oid : ObjectId) (p : Product) : Product :=
  mkProduct (Some (match p__id p with Some o => o | None => oid end))
            (p_id p) (p_title p) (p_description p) (p_longDescription p)
            (p_image p) (stored_specs (p_specs p)).

Fixpoint cast_each (oid : ObjectId) (l : list Product) : list Product :=
  match l with
  | [] => []
  | p :: t => cast_product oid p :: cast_each (N.succ oid) t
  end.

(** Casting a value for [products]: each element becomes a subdocument; the
    identifiers drawn start at [oid]. *)
Definition cast_products (oid : ObjectId) (v : option (list Product))
  : option (list Product) :=
  match v with
  | Some l => Some (cast_each oid l)
  | None => None
  end.

(** The subdocuments a value for [products] makes. *)
Definition subdocuments (v : option (list Product)) : N :=
  match v with
  | Some l => N.of_nat (length l)
  | None => 0%N
  end.

Definition cast_category (oid : ObjectId) (c : CategoryFields) : CategoryFields :=
  mkCategory (c_id c) (c_type c) (c_title c) (c_description c) (c_image c)
             (cast_products oid (c_products c)).

(** An array path defaults to the empty array. *)
Definition products_default (c : CategoryFields) : CategoryFields :=
  mkCategory (c_id c) (c_type c) (c_title c) (c_description c) (c_image c)
             (default [] (c_products c)).

(** What is stored of [new Category(doc)]; the identifiers of its products
    start at [oid]. *)
Definition category_document (oid : ObjectId) (c : CategoryFields) : CategoryFields :=
  products_default (cast_category oid c).

(** [category: { type: String, default: 'General' }] *)
Definition gallery_defaults (g : GalleryFields) : GalleryFields :=
  mkGallery (g_url g) (g_title g) (g_location g) (default "General" (g_category g)).

(** ** The models

    The calls the handlers make on [Category], [Promo] and [Gallery]. *)

Fixpoint split_first {A} (p : A -> bool) (l : list A) : option (list A * A * list A) :=
  match l with
  | [] => None
  | x :: t =>
      if p x then Some ([], x, t)
      else match split_first p t with
           | Some (pre, y, post) => Some (x :: pre, y, post)
           | None => None
           end
  end.

(** The filter [{ id }]. *)
Definition has_id (key : string) (d : CategoryDoc) : bool :=
  opt_eqb (c_id (fields d)) (Some key).

(** The unique index on [id]: is the value already indexed in [l]? *)
Definition id_taken (v : option string) (l : list CategoryDoc) : bool :=
  match v with
  | Some s => existsb (has_id s) l
  | None => false
  end.

Definition over {A} (new old : option A) : option A :=
  match new with Some _ => new | None => old end.

(** [$set] of the paths an update names; the identifiers of the products it
    names start at [oid]. *)
Definition set_category (oid : ObjectId) (u old : CategoryFields) : CategoryFields :=
  mkCategory (over (c_id u) (c_id old)) (over (c_type u) (c_type old))
             (over (c_title u) (c_title old))
             (over (c_description u) (c_description old))
             (over (c_image u) (c_image old))
             (over (cast_products oid (c_products u)) (c_products old)).

(** [Object.assign(promo, req.body)] *)
Definition assign_promo (u old : PromoFields) : PromoFields :=
  mkPromo (over (pr_tagText u) (pr_tagText old)) (over (pr_title u) (pr_title old))
          (over (pr_description u) (pr_description old))
          (over (pr_highlightText u) (pr_highlightText old))
          (over (pr_buttonText u) (pr_buttonText old))
          (over (pr_buttonLink u) (pr_buttonLink old)).

Definition promo_eqb (a b : PromoFields) : bool :=
  opt_eqb (pr_tagText a) (pr_tagText b) && opt_eqb (pr_title a) (pr_title b)
  && opt_eqb (pr_description a) (pr_description b)
  && opt_eqb (pr_highlightText a) (pr_highlightText b)
  && opt_eqb (pr_buttonText a) (pr_buttonText b)
  && opt_eqb (pr_buttonLink a) (pr_buttonLink b).

Module Category.

(** [Category.find().lean()] *)
Definition find : Async (list CategoryDoc) :=
  fun st => (st, Resolved (categories st)).

(** [Category.create(doc)]: validate, check the unique index, insert. *)
Definition create (doc : CategoryFields) (now : Time) : Async CategoryDoc :=
  fun st =>
    match categorySchema_errors doc with
    | [] =>
        if id_taken (c_id doc) (categories st)
        then (st, Rejected (DuplicateKey "id" (match c_id doc with Some s => s | None => "" end)))
        else
          let d := mkDoc (next_oid st)
                         (category_document (N.succ (next_oid st)) doc) now now in
          (take_oids (1 + subdocuments (c_products doc))
                     (set_categories (categories st ++ [d]) st),
           Resolved d)
    | errs => (st, Rejected (ValidationError errs))
    end.

(** [Category.deleteMany({})] *)
Definition deleteMany : Async unit :=
  fun st => (set_categories [] st, Resolved tt).

(** [Category.findOneAndUpdate({ id }, update,
      { new: true, upsert: true, runValidators: true })].
    The update has no operator, so it is a [$set] of the paths it names;
    [updatedAt] is set, and [createdAt] on insert.  On insert the document
    starts from the filter's [id] and takes the schema's defaults.  The
    products the update names are cast, each to a new subdocument. *)
Definition findOneAndUpdate (key : string) (update : CategoryFields) (now : Time)
  : Async CategoryDoc :=
  fun st =>
    match categorySchema_update_errors update with
    | [] =>
        match split_first (has_id key) (categories st) with
        | Some (pre, d, post) =>
            let f := set_category (next_oid st) update (fields d) in
            if negb (opt_eqb (c_id f) (c_id (fields d))) && id_taken (c_id f) (pre ++ post)
            then (st, Rejected (DuplicateKey "id" (match c_id f with Some s => s | None => "" end)))
            else
              let d' := mkDoc (_id d) f (createdAt d) now in
              (take_oids (subdocuments (c_products update))
                         (set_categories (pre ++ d' :: post) st),
               Resolved d')
        | None =>
            let base := mkCategory (Some key) None None None None None in
            let f := products_default
                       (set_category (N.succ (next_oid st)) update base) in
            if id_taken (c_id f) (categories st)
            then (st, Rejected (DuplicateKey "id" (match c_id f with Some s => s | None => "" end)))
            else
              let d' := mkDoc (next_oid st) f now now in
              (take_oids (1 + subdocuments (c_products update))
                         (set_categories (categories st ++ [d']) st),
               Resolved d')
        end
    | errs => (st, Rejected (ValidationError errs))
    end.

(** [Category.findOneAndDelete({ id })] *)
Definition findOneAndDelete (key : string) : Async (option CategoryDoc) :=
  fun st =>
    match split_first (has_id key) (categories st) with
    | Some (pre, d, post) => (set_categories (pre ++ post) st, Resolved (Some d))
    | None => (st, Resolved None)
    end.

End Category.

Module Promo.

(** [Promo.findOne()], with or without [.lean()]: the first document. *)
Definition findOne : Async (option PromoDoc) :=
  fun st => (st, Resolved (hd_error (promos st))).

(** [Promo.create(doc)]: no path of [promoSchema] has a validator. *)
Definition create (doc : PromoFields) (now : Time) : Async PromoDoc :=
  fun st =>
    let d := mkDoc (next_oid st) doc now now in
    (bump_oid (set_promos (promos st ++ [d]) st), Resolved d).

Fixpoint replace_by_id (d : PromoDoc) (l : list PromoDoc) : list PromoDoc :=
  match l with
  | [] => []
  | x :: t => if N.eqb (_id x) (_id d) then d :: t else x :: replace_by_id d t
  end.

(** [promo.save()] after the fields of [loaded] were assigned to: nothing is
    written when no path was modified; otherwise [updatedAt] is stamped and
    the document with that [_id] is updated. *)
Definition save (loaded : PromoDoc) (assigned : PromoFields) (now : Time) : Async PromoDoc :=
  fun st =>
    if promo_eqb assigned (fields loaded)
    then (st, Resolved loaded)
    else
      let d := mkDoc (_id loaded) assigned (createdAt loaded) now in
      (set_promos (replace_by_id d (promos st)) st, Resolved d).

End Promo.

(** Casting a route parameter to an ObjectId is the driver's: the handlers
    take the cast as [cast].  [castObjectId] is the cast of the current
    driver, which accepts exactly the strings of 24 hexadecimal digits. *)
Definition hex_digit (c : ascii) : option N :=
  let n := N_of_ascii c in
  if (48 <=? n)%N && (n <=? 57)%N then Some (n - 48)%N
  else if (97 <=? n)%N && (n <=? 102)%N then Some (n - 87)%N
  else if (65 <=? n)%N && (n <=? 70)%N then Some (n - 55)%N
  else None.

Fixpoint parse_hex (acc : N) (s : string) : option N :=
  match s with
  | EmptyString => Some acc
  | String c t =>
      match hex_digit c with
      | Some d => parse_hex (16 * acc + d)%N t
      | None => None
      end
  end.

Definition castObjectId (s : string) : option ObjectId :=
  if Nat.eqb (String.length s) 24 then parse_hex 0%N s else None.

Module Gallery.

(** [.sort({ createdAt: -1 })]: most recent first. *)
Fixpoint insert_desc (d : GalleryDoc) (l : list GalleryDoc) : list GalleryDoc :=
  match l with
  | [] => [d]
  | x :: t =>
      if (createdAt x <=? createdAt d)%N then d :: x :: t
      else x :: insert_desc d t
  end.

Definition sort_desc (l : list GalleryDoc) : list GalleryDoc :=
  fold_right insert_desc [] l.

(** [Gallery.find().sort({ createdAt: -1 }).lean()] *)
Definition find_sorted : Async (list GalleryDoc) :=
  fun st => (st, Resolved (sort_desc (galleries st))).

(** [Gallery.create(doc)] *)
Definition create (doc : GalleryFields) (now : Time) : Async GalleryDoc :=
  fun st =>
    match gallerySchema_errors doc with
    | [] =>
        let d := mkDoc (next_oid st) (gallery_defaults doc) now now in
        (bump_oid (set_galleries (galleries st ++ [d]) st), Resolved d)
    | errs => (st, Rejected (ValidationError errs))
    end.

(** [Gallery.deleteMany({})] *)
Definition deleteMany : Async unit :=
  fun st => (set_galleries [] st, Resolved tt).

Fixpoint first_invalid (l : list GalleryFields) : list Path :=
  match l with
  | [] => []
  | g :: t =>
      match gallerySchema_errors g with
      | [] => first_invalid t
      | errs => errs
      end
  end.

Fixpoint stamp_all (oid : ObjectId) (k : nat) (clock : nat -> Time)
         (l : list GalleryFields) : list GalleryDoc :=
  match l with
  | [] => []
  | g :: t =>
      mkDoc oid (gallery_defaults g) (clock k) (clock k)
      :: stamp_all (N.succ oid) (S k) clock t
  end.

(** [Gallery.insertMany(arr)] (ordered): an argument that is not an array
    is wrapped in one, [undefined] making an empty document; every document
    is validated before anything is sent to the store, so nothing is
    inserted when one of them fails. *)
Definition insertMany (arr : option (list GalleryFields)) (clock : nat -> Time)
  : Async (list GalleryDoc) :=
  fun st =>
    let docs := match arr with
                | Some l => l
                | None => [mkGallery None None None None]
                end in
    match first_invalid docs with
    | [] =>
        let created := stamp_all (next_oid st) 0 clock docs in
        (mkStore (categories st) (promos st) (galleries st ++ created)
                 (next_oid st + N.of_nat (length docs))%N,
         Resolved created)
    | errs => (st, Rejected (ValidationError errs))
    end.

(** [Gallery.findByIdAndDelete(id)]: the string is cast to an ObjectId
    first; a string that does not cast rejects. *)
Definition findByIdAndDelete (cast : string -> option ObjectId) (id : string)
  : Async (option GalleryDoc) :=
  fun st =>
    match cast id with
    | Some oid =>
        match split_first (fun d => N.eqb (_id d) oid) (galleries st) with
        | Some (pre, d, post) => (set_galleries (pre ++ post) st, Resolved (Some d))
        | None => (st, Resolved None)
        end
    | None => (st, Rejected (CastError id))
    end.

End Gallery.

(** ** Requests *)

(** The body of [POST /api/products/sync]; [None] when it has no
    [categories] key. *)
Record ProductsSyncBody : Type := mkProductsSync {
  sync_categories : option (list CategoryFields)
}.

(** The body of [POST /api/gallery/sync]; [None] when it has no [items] key. *)
Record GallerySyncBody : Type := mkGallerySync {
  sync_items : option (list GalleryFields)
}.

(** [for (const x of xs) { await f(x) }]; [undefined] is not iterable. *)
Fixpoint for_each {A} (f : nat -> A -> Async unit) (k : nat) (l : list A) : Async unit :=
  match l with
  | [] => ret tt
  | x :: t => f k x ;;; for_each f (S k) t
  end.

Definition for_of {A} (xs : option (list A)) (f : nat -> A -> Async unit) : Async unit :=
  match xs with
  | Some l => for_each f 0 l
  | None => throw (TypeError "undefined is not iterable")
  end.

(** [xs.length] *)
Definition js_length {A} (xs : option (list A)) : Async nat :=
  match xs with
  | Some l => ret (length l)
  | None => throw (TypeError "Cannot read properties of undefined")
  end.

Definition decimal (n : nat) : string := NilZero.string_of_uint (Nat.to_uint n).

(** ** The route handlers *)

(** [GET /api/products] *)
Definition get_api_products : Handler :=
  try_catch (
    categories <- Category.find ;;
    json (BCategories categories)).

(** [POST /api/category] *)
Definition post_api_category (req_body : CategoryFields) (now : Time) : Handler :=
  try_catch (
    category <- Category.create req_body now ;;
    status_json 201 (BCategory category)).

(** [POST /api/products/sync] *)
Definition post_api_products_sync (req_body : ProductsSyncBody) (clock : nat -> Time)
  : Handler :=
  try_catch (
    let categories := sync_categories req_body in
    Category.deleteMany ;;;
    for_of categories (fun k cat => Category.create cat (clock k) ;;; ret tt) ;;;
    n <- js_length categories ;;
    json (BMessage ("Synced " ++ decimal n ++ " categories")%string)).

(** [PUT /api/category/:id] *)
Definition put_api_category (id : string) (req_body : CategoryFields) (now : Time)
  : Handler :=
  try_catch (
    updated <- Category.findOneAndUpdate id req_body now ;;
    json (BCategory updated)).

(** [DELETE /api/category/:id] *)
Definition delete_api_category (id : string) : Handler :=
  try_catch (
    Category.findOneAndDelete id ;;;
    json BSuccess).

(** The object literal of [GET /api/promo]. *)
Definition default_promo : PromoFields :=
  mkPromo (Some "Special Offer")
          (Some "Already have a quote?")
          (Some "We aim to beat any comparable written quotes by up to")
          (Some "15%")
          (Some "Learn More")
          (Some "#contact").

(** [GET /api/promo] *)
Definition get_api_promo : Handler :=
  try_catch (
    promo <- Promo.findOne ;;
    match promo with
    | Some p => json (BPromoDoc p)
    | None => json (BPromoPlain default_promo)
    end).

(** [PUT /api/promo] *)
Definition put_api_promo (req_body : PromoFields) (now : Time) : Handler :=
  try_catch (
    promo <- Promo.findOne ;;
    match promo with
    | Some p =>
        saved <- Promo.save p (assign_promo req_body (fields p)) now ;;
        json (BPromoDoc saved)
    | None =>
        created <- Promo.create req_body now ;;
        json (BPromoDoc created)
    end).

(** [GET /api/gallery] *)
Definition get_api_gallery : Handler :=
  try_catch (
    items <- Gallery.find_sorted ;;
    json (BGalleryItems items)).

(** [POST /api/gallery] *)
Definition post_api_gallery (req_body : GalleryFields) (now : Time) : Handler :=
  try_catch (
    item <- Gallery.create req_body now ;;
    status_json 201 (BGalleryItem item)).

(** [POST /api/gallery/sync] *)
Definition post_api_gallery_sync (req_body : GallerySyncBody) (clock : nat -> Time)
  : Handler :=
  try_catch (
    let items := sync_items req_body in
    Gallery.deleteMany ;;;
    created <- Gallery.insertMany items clock ;;
    json (BCount (length created))).

(** [DELETE /api/gallery/:id] *)
Definition delete_api_gallery (cast : string -> option ObjectId) (id : string) : Handler :=
  try_catch (
    Gallery.findByIdAndDelete cast id ;;;
    json BSuccess).

(** ** The route table

    The routes the application registers, each with what its handler reads
    from the request and from the clock.  Requests are served one at a
    time. *)
Inductive Request : Type :=
| GET_products
| POST_category (req_body : CategoryFields) (now : Time)
| POST_products_sync (req_body : ProductsSyncBody) (clock : nat -> Time)
| PUT_category (id : string) (req_body : CategoryFields) (now : Time)
| DELETE_category (id : string)
| GET_promo
| PUT_promo (req_body : PromoFields) (now : Time)
| GET_gallery
| POST_gallery (req_body : GalleryFields) (now : Time)
| POST_gallery_sync (req_body : GallerySyncBody) (clock : nat -> Time)
| DELETE_gallery (id : string).

Definition serve (cast : string -> option ObjectId) (r : Request) : Handler :=
  match r with
  | GET_products => get_api_products
  | POST_category b now => post_api_category b now
  | POST_products_sync b clock => post_api_products_sync b clock
  | PUT_category id b now => put_api_category id b now
  | DELETE_category id => delete_api_category id
  | GET_promo => get_api_promo
  | PUT_promo b now => put_api_promo b now
  | GET_gallery => get_api_gallery
  | POST_gallery b now => post_api_gallery b now
  | POST_gallery_sync b clock => post_api_gallery_sync b clock
  | DELETE_gallery id => delete_api_gallery cast id
  end.

(** The store after a sequence of requests. *)
Fixpoint serve_all (cast : string -> option ObjectId) (rs : list Request) (st : Store)
  : Store :=
  match rs with
  | [] => st
  | r :: t => serve_all cast t (fst (serve cast r st))
  end.

(** * Definitions for the statements *)

(** A hexadecimal digit, either case. *)
Definition is_hex (c : ascii) : bool :=
  let n := N_of_ascii c in
  ((48 <=? n)%N && (n <=? 57)%N)
  || ((97 <=? n)%N && (n <=? 102)%N)
  || ((65 <=? n)%N && (n <=? 70)%N).

(** A well-formed identifier: exactly 24 hexadecimal digits. *)
Definition well_formed_oid (s : string) : bool :=
  Nat.eqb (String.length s) 24 && forallb is_hex (list_ascii_of_string s).

(** [a] may be listed before [b]: it is not older. *)
Definition newer_first (a b : GalleryDoc) : Prop := (createdAt b <= createdAt a)%N.

(** A path of the merged document: the body's value when the body names the
    path, the previous value otherwise. *)
Definition merged {A} (get : PromoFields -> option A) (req_body old new : PromoFields) : Prop :=
  match get req_body with
  | Some v => get new = Some v
  | None => get new = get old
  end.

(** A value in which no object is without keys, at any depth. *)
Fixpoint plain (m : Mixed) {struct m} : bool :=
  match m with
  | MObj kv =>
      negb (is_nil kv)
      && (fix all (l : list (string * Mixed)) : bool :=
            match l with
            | [] => true
            | (_, v) :: t => plain v && all t
            end) kv
  | MArr l =>
      (fix all (l : list Mixed) : bool :=
         match l with
         | [] => true
         | v :: t => plain v && all t
         end) l
  | _ => true
  end.

(** What is stored of a given product [p]: each of its paths, under an
    [_id] (its own if it names one); its [specs] are absent when it names
    none and are the given value when that value is plain. *)
Definition product_stored (p stored : Product) : Prop :=
  p_id stored = p_id p
  /\ p_title stored = p_title p
  /\ p_description stored = p_description p
  /\ p_longDescription stored = p_longDescription p
  /\ p_image stored = p_image p
  /\ present (p__id stored) = true
  /\ (forall o, p__id p = Some o -> p__id stored = Some o)
  /\ (p_specs p = None -> p_specs stored = None)
  /\ (forall m, p_specs p = Some m -> plain m = true -> p_specs stored = Some m).

(** What is stored of a given category [c]: each of its paths, and its
    products one by one, in order ([products] is the empty array when [c]
    names none). *)
Definition category_stored (c stored : CategoryFields) : Prop :=
  c_id stored = c_id c
  /\ c_type stored = c_type c
  /\ c_title stored = c_title c
  /\ c_description stored = c_description c
  /\ c_image stored = c_image c
  /\ exists ps,
       c_products stored = Some ps
       /\ Forall2 product_stored
                  (match c_products c with Some l => l | None => [] end) ps.

(** What is stored of a given gallery item. *)
Definition gallery_stored (g stored : GalleryFields) : Prop :=
  g_url stored = g_url g
  /\ g_title stored = g_title g
  /\ g_location stored = g_location g
  /\ g_category stored
     = Some (match g_category g with Some c => c | None => "General" end).

(** Two products that differ at most in their [_id]. *)
Definition same_product (p q : Product) : Prop :=
  p_id q = p_id p
  /\ p_title q = p_title p
  /\ p_description q = p_description p
  /\ p_longDescription q = p_longDescription p
  /\ p_image q = p_image p
  /\ p_specs q = p_specs p.

(** [d'] is [d] written again by the same update [u]: the same document but
    for [updatedAt] and, when [u] names [products], the [_id] of each
    product. *)
Definition rewritten (u : CategoryFields) (d d' : CategoryDoc) : Prop :=
  _id d' = _id d
  /\ createdAt d' = createdAt d
  /\ c_id (fields d') = c_id (fields d)
  /\ c_type (fields d') = c_type (fields d)
  /\ c_title (fields d') = c_title (fields d)
  /\ c_description (fields d') = c_description (fields d)
  /\ c_image (fields d') = c_image (fields d)
  /\ (c_products u = None -> c_products (fields d') = c_products (fields d))
  /\ match c_products (fields d), c_products (fields d') with
     | Some ps, Some ps' => Forall2 same_product ps ps'
     | None, None => True
     | _, _ => False
     end.

(** The response carries the body's value on the path [get] when the body
    names it. *)
Definition carries {A} (get : PromoFields -> option A) (req_body answer : PromoFields)
  : Prop :=
  match get req_body with
  | Some v => get answer = Some v
  | None => True
  end.

(** The identifiers a run of successful [Category.create] calls draws. *)
Fixpoint oids_used (l : list CategoryFields) : N :=
  match l with
  | [] => 0%N
  | c :: t => (1 + subdocuments (c_products c) + oids_used t)%N
  end.

(** The documents a run of successful [Category.create] calls inserts. *)
Fixpoint stamp_categories (oid : ObjectId) (k : nat) (clock : nat -> Time)
         (l : list CategoryFields) : list CategoryDoc :=
  match l with
  | [] => []
  | c :: t =>
      mkDoc oid (category_document (N.succ oid) c) (clock k) (clock k)
      :: stamp_categories (oid + (1 + subdocuments (c_products c)))%N (S k) clock t
  end.

(** The body of the loop of [POST /api/products/sync]. *)
Definition create_each (clock : nat -> Time) (k : nat) (cat : CategoryFields) : Async unit :=
  Category.create cat (clock k) ;;; ret tt.

(** The store a sync leaves when its first [n] documents were inserted. *)
Definition synced_prefix (st : Store) (clock : nat -> Time) (pre : list CategoryFields)
  : Store :=
  mkStore (stamp_categories (next_oid st) 0 clock pre) (promos st) (galleries st)
          (next_oid st + oids_used pre)%N.

(** The business key of a stored category. *)
Definition key_of (d : CategoryDoc) : option string := c_id (fields d).

(** No two category documents carry the same [id]. *)
Definition unique_ids (st : Store) : Prop := NoDup (map key_of (categories st)).

(** No two gallery documents carry the same [_id]. *)
Definition unique_gallery_oids (st : Store) : Prop :=
  NoDup (map (@_id GalleryFields) (galleries st)).

(** A gallery document that has every path of the schema: the three required
    ones, not empty, and a [category]. *)
Definition gallery_complete (d : GalleryDoc) : bool :=
  gallery_valid (fields d) && present (g_category (fields d)).

(** The routes that sync a collection. *)
Definition is_sync (r : Request) : bool :=
  match r with
  | POST_products_sync _ _ | POST_gallery_sync _ _ => true
  | _ => false
  end.

(** The routes that only read. *)
Definition is_read (r : Request) : bool :=
  match r with
  | GET_products | GET_promo | GET_gallery => true
  | _ => false
  end.

(** The collection a route works on. *)
Inductive Collection : Type := Categories | Promos | Galleries.

Definition collection_of (r : Request) : Collection :=
  match r with
  | GET_products | POST_category _ _ | POST_products_sync _ _
  | PUT_category _ _ _ | DELETE_category _ => Categories
  | GET_promo | PUT_promo _ _ => Promos
  | GET_gallery | POST_gallery _ _ | POST_gallery_sync _ _ | DELETE_gallery _ => Galleries
  end.

Definition same_collection (a b : Collection) : bool :=
  match a, b with
  | Categories, Categories | Promos, Promos | Galleries, Galleries => true
  | _, _ => false
  end.

(** Every gallery document of the store is complete. *)
Definition galleries_complete (st : Store) : Prop :=
  Forall (fun d => gallery_complete d = true) (galleries st).

(** Every category document of the store passes the schema's validation. *)
Definition categories_valid (st : Store) : Prop :=
  Forall (fun d => category_valid (fields d) = true) (categories st).

(** What [GET /api/gallery] lists. *)
Definition listed_gallery (st : Store) : list GalleryDoc :=
  match body (snd (get_api_gallery st)) with
  | BGalleryItems items => items
  | _ => []
  end.

(** ** Sample stores and requests *)

Definition windows_category : CategoryFields :=
  mkCategory (Some "casement") (Some "windows") (Some "Casement Windows")
             (Some "Side-hinged") None None.

Definition doors_category : CategoryFields :=
  mkCategory (Some "bifold") (Some "doors") (Some "Bifold Doors") None None
             (Some [mkProduct None (Some "bf-1") (Some "Three panel")
                              None None None None]).

Definition empty_store : Store := mkStore [] [] [] 0%N.

Definition two_categories : Store :=
  mkStore [mkDoc 0%N (category_document 1%N windows_category) 10%N 10%N;
           mkDoc 1%N (category_document 2%N doors_category) 11%N 11%N] [] [] 3%N.

Definition description_only : CategoryFields :=
  mkCategory None None None (Some "Made to measure") None None.

Definition one_promo : Store :=
  mkStore [] [mkDoc 4%N (mkPromo (Some "Sale") (Some "Spring") None None None None) 1%N 1%N]
          [] 5%N.

Definition title_only : PromoFields :=
  mkPromo None (Some "Summer") None None None None.

Definition empty_specs_category : CategoryFields :=
  mkCategory (Some "composite") (Some "doors") (Some "Composite Doors") None None
             (Some [mkProduct None (Some "cs-1") (Some "Flush") None None None
                              (Some (MObj []))]).

Definition duplicated_categories : list CategoryFields :=
  [windows_category; windows_category].

Definition two_items : list GalleryFields :=
  [mkGallery (Some "/img/a.jpg") (Some "Bay window") (Some "Leeds") None;
   mkGallery (Some "/img/b.jpg") (Some "Front door") (Some "York") (Some "Doors")].

Definition two_pictures : Store :=
  mkStore [] []
          [mkDoc 0%N (gallery_defaults (mkGallery (Some "/img/a.jpg") (Some "Bay window")
                                                  (Some "Leeds") None)) 5%N 5%N;
           mkDoc 1%N (gallery_defaults (mkGallery (Some "/img/b.jpg") (Some "Front door")
                                                  (Some "York") (Some "Doors"))) 6%N 6%N]
          2%N.

Definition one_category : Store :=
  mkStore [mkDoc 1%N (category_document 2%N doors_category) 11%N 11%N] [] [] 3%N.

(** * Properties *)

Unset Implicit Arguments.

(** ** Searching a collection *)

Section SplitFirst.

Context {A : Type}.
Variable p : A -> bool.

Lemma split_first_none (l : list A) :
  (forall x, In x l -> p x = false) -> split_first p l = None.
Proof.
  induction l as [|x t IH]; intros H; simpl; [reflexivity|].
  rewrite (H x (or_introl eq_refl)).
  rewrite IH; [reflexivity|].
  intros y Hy. apply H. now right.
Qed.

Lemma split_first_some (l pre post : list A) (d : A) :
  split_first p l = Some (pre, d, post) ->
  l = pre ++ d :: post /\ p d = true /\ (forall x, In x pre -> p x = false).
Proof.
  revert pre; induction l as [|x t IH]; intros pre; simpl; [discriminate|].
  destruct (p x) eqn:Hx.
  - intros [= <- <- <-]. repeat split; [assumption | intros y []].
  - destruct (split_first p t) as [[[pre' y] post']|]; [|discriminate].
    intros [= <- <- <-].
    destruct (IH pre' eq_refl) as (-> & Hd & Hpre).
    repeat split; [assumption|].
    intros z [<-|Hz]; [assumption | now apply Hpre].
Qed.

Lemma split_first_found (pre post : list A) (d : A) :
  (forall x, In x pre -> p x = false) -> p d = true ->
  split_first p (pre ++ d :: post) = Some (pre, d, post).
Proof.
  induction pre as [|x t IH]; intros Hpre Hd; simpl.
  - now rewrite Hd.
  - rewrite (Hpre x (or_introl eq_refl)).
    rewrite IH; [reflexivity | | assumption].
    intros y Hy. apply Hpre. now right.
Qed.

Lemma split_first_is_none (l : list A) :
  split_first p l = None -> forall x, In x l -> p x = false.
Proof.
  induction l as [|x t IH]; simpl; [intros _ y []|].
  destruct (p x) eqn:Hx; [discriminate|].
  destruct (split_first p t) as [[[pre y] post]|]; [discriminate|].
  intros _ z [<-|Hz]; [assumption | now apply IH].
Qed.

End SplitFirst.

Ltac case_split_first :=
  match goal with
  | |- context [split_first ?p ?l] =>
      let E := fresh "Hsplit" in
      destruct (split_first p l) as [[[? ?] ?]|] eqn:E
  end.

Lemma opt_eqb_eq (a b : option string) : opt_eqb a b = true <-> a = b.
Proof.
  destruct a as [x|], b as [y|]; simpl; try (split; congruence).
  rewrite String.eqb_eq. split; congruence.
Qed.

Lemma opt_eqb_refl (a : option string) : opt_eqb a a = true.
Proof. now apply opt_eqb_eq. Qed.

Lemma opt_eqb_neq (a b : option string) : opt_eqb a b = false <-> a <> b.
Proof.
  rewrite <- opt_eqb_eq. destruct (opt_eqb a b); split; congruence.
Qed.

Lemma has_id_false (key : string) (d : CategoryDoc) :
  c_id (fields d) <> Some key -> has_id key d = false.
Proof. intros H. now apply opt_eqb_neq. Qed.

(** ** Deleting a category by key *)

(** C7: for a key that no category document carries, [DELETE /api/category/:id]
    answers 200 [{ success: true }] and the store is the one it was called on:
    every document is still there, unchanged, and none was added. *)
Theorem delete_absent_key_is_noop (st : Store) (key : string) :
  (forall d, In d (categories st) -> c_id (fields d) <> Some key) ->
  delete_api_category key st = (st, mkResponse 200 BSuccess).
Proof.
  intros Habsent.
  unfold delete_api_category, try_catch, bind, Category.findOneAndDelete.
  rewrite split_first_none; [reflexivity|].
  intros d Hd. apply has_id_false. now apply Habsent.
Qed.

Lemma delete_absent_key_is_noop_witness :
  delete_api_category "sash" two_categories = (two_categories, mkResponse 200 BSuccess).
Proof.
  apply (delete_absent_key_is_noop two_categories "sash").
  simpl. intros d [<-|[<-|[]]]; simpl; discriminate.
Defined.

(** ** Reading the promo *)

(** C4: on an empty promo collection [GET /api/promo] answers with the object
    literal of the handler, and the store (so the promo collection, still
    empty) is untouched. *)
Theorem get_promo_default_not_persisted (st : Store) :
  promos st = [] ->
  get_api_promo st =
    (st, mkResponse 200 (BPromoPlain
           (mkPromo (Some "Special Offer")
                    (Some "Already have a quote?")
                    (Some "We aim to beat any comparable written quotes by up to")
                    (Some "15%")
                    (Some "Learn More")
                    (Some "#contact"))))
  /\ promos (fst (get_api_promo st)) = [].
Proof.
  intros Hempty.
  unfold get_api_promo, try_catch, bind, Promo.findOne.
  rewrite Hempty. simpl. split; [reflexivity | assumption].
Qed.

Lemma get_promo_default_not_persisted_witness :
  get_api_promo two_categories =
    (two_categories, mkResponse 200 (BPromoPlain default_promo))
  /\ promos (fst (get_api_promo two_categories)) = [].
Proof.
  apply (get_promo_default_not_persisted two_categories). reflexivity.
Defined.

(** ** Sync without the array *)

(** C3: when the body of a sync request has no [categories] (resp. [items])
    key, [deleteMany({})] has already run when the request fails: the answer
    is a 500 and the collection is empty, whatever it held. *)
Theorem sync_without_array_empties_collection (st : Store) (clock : nat -> Time) :
  (let (st', r) := post_api_products_sync (mkProductsSync None) clock st in
   status r = 500%N /\ (exists e, body r = BError e) /\ categories st' = [])
  /\
  (let (st', r) := post_api_gallery_sync (mkGallerySync None) clock st in
   status r = 500%N /\ (exists e, body r = BError e) /\ galleries st' = []).
Proof.
  split.
  - unfold post_api_products_sync, try_catch, bind, Category.deleteMany; simpl.
    repeat split; eauto.
  - unfold post_api_gallery_sync, try_catch, bind, Gallery.deleteMany,
      Gallery.insertMany; simpl.
    repeat split; eauto.
Qed.

(** ** Upsert of a category that lacks required paths *)

(** C6 (the code at the failing input): [PUT /api/category/new-cat] with a
    body that only names [description], on a store without that key, answers
    200 with a freshly inserted document that has neither [type] nor [title]:
    the document fails the schema's own validation, which [POST /api/category]
    applies to the same paths. *)
Theorem upsert_inserts_document_without_required_paths :
  exists inserted,
    put_api_category "new-cat" description_only 7%N empty_store =
      (mkStore [inserted] [] [] 1%N, mkResponse 200 (BCategory inserted))
    /\ c_id (fields inserted) = Some "new-cat"
    /\ c_description (fields inserted) = Some "Made to measure"
    /\ c_type (fields inserted) = None
    /\ c_title (fields inserted) = None
    /\ categorySchema_errors (fields inserted) = [Top "type"; Top "title"]
    /\ post_api_category (fields inserted) 7%N empty_store =
         (empty_store,
          mkResponse 500 (BError (ValidationError [Top "type"; Top "title"]))).
Proof.
  eexists. split; [reflexivity|].
  repeat split.
Qed.

Lemma products_errors_cast (l : list Product) :
  forall k oid, products_errors k (cast_each oid l) = products_errors k l.
Proof.
  induction l as [|p t IH]; intros k oid; simpl; [reflexivity|].
  now rewrite IH.
Qed.

(** On the update path the paths that are not named keep their values, so a
    valid document stays valid: the insert path alone escapes validation. *)
Lemma update_keeps_valid (oid : ObjectId) (u old : CategoryFields) :
  categorySchema_update_errors u = [] ->
  categorySchema_errors old = [] ->
  categorySchema_errors (set_category oid u old) = [].
Proof.
  unfold categorySchema_update_errors, categorySchema_errors.
  intros Hu Hold.
  apply app_eq_nil in Hu as [Hu1 Hu]. apply app_eq_nil in Hu as [Hu2 Hu].
  apply app_eq_nil in Hu as [Hu3 Hu4].
  apply app_eq_nil in Hold as [Ho1 Hold]. apply app_eq_nil in Hold as [Ho2 Hold].
  apply app_eq_nil in Hold as [Ho3 Ho4].
  destruct u as [ui uty uti ude uim upr], old as [oi oty oti ode oim opr];
    cbn [set_category c_id c_type c_title c_products over present] in *.
  destruct ui, uty, uti, upr; cbn [over present negb orb cast_products] in *;
    rewrite ?Hu1, ?Hu2, ?Hu3, ?Ho1, ?Ho2, ?Ho3; cbn [app];
    cbn [opt_products_errors] in *;
    rewrite ?products_errors_cast; assumption.
Qed.

(** ** Deleting a gallery item by identifier *)

Lemma hex_digit_is_hex (c : ascii) : present (hex_digit c) = is_hex c.
Proof.
  unfold hex_digit, is_hex; cbv zeta.
  destruct ((48 <=? N_of_ascii c)%N && (N_of_ascii c <=? 57)%N); [reflexivity|].
  destruct ((97 <=? N_of_ascii c)%N && (N_of_ascii c <=? 102)%N); [reflexivity|].
  destruct ((65 <=? N_of_ascii c)%N && (N_of_ascii c <=? 70)%N); reflexivity.
Qed.

Lemma parse_hex_present (s : string) :
  forall acc, present (parse_hex acc s) = forallb is_hex (list_ascii_of_string s).
Proof.
  induction s as [|c t IH]; intros acc; simpl; [reflexivity|].
  rewrite <- hex_digit_is_hex.
  destruct (hex_digit c) as [d|]; simpl; [apply IH | reflexivity].
Qed.

Lemma castObjectId_well_formed (s : string) :
  present (castObjectId s) = well_formed_oid s.
Proof.
  unfold castObjectId, well_formed_oid.
  destruct (Nat.eqb (String.length s) 24); simpl; [apply parse_hex_present | reflexivity].
Qed.

(** C10: [DELETE /api/gallery/:id] answers 200 [{ success: true }] exactly
    for the identifiers that cast to an ObjectId, whether a document carries
    the identifier or not (with none, the store is left as it was); for an
    identifier that does not cast it answers the generic 500 and writes
    nothing.  With the cast of the current driver the identifiers that
    succeed are the strings of 24 hexadecimal digits. *)
Theorem gallery_delete_success_iff_well_formed
        (cast : string -> option ObjectId) (st : Store) (id : string) :
  (present (cast id) = true <->
   snd (delete_api_gallery cast id st) = mkResponse 200 BSuccess)
  /\ (present (cast id) = false <->
      delete_api_gallery cast id st = (st, mkResponse 500 (BError (CastError id))))
  /\ (forall oid, cast id = Some oid ->
      (forall d, In d (galleries st) -> _id d <> oid) ->
      delete_api_gallery cast id st = (st, mkResponse 200 BSuccess))
  /\ (well_formed_oid id = true <->
      snd (delete_api_gallery castObjectId id st) = mkResponse 200 BSuccess)
  /\ (well_formed_oid id = false <->
      delete_api_gallery castObjectId id st
      = (st, mkResponse 500 (BError (CastError id)))).
Proof.
  assert (Hany : forall c : string -> option ObjectId,
             (present (c id) = true <->
              snd (delete_api_gallery c id st) = mkResponse 200 BSuccess)
             /\ (present (c id) = false <->
                 delete_api_gallery c id st
                 = (st, mkResponse 500 (BError (CastError id))))).
  { intros c.
    unfold delete_api_gallery, try_catch, bind, Gallery.findByIdAndDelete.
    destruct (c id) as [oid|]; simpl.
    - repeat split; try discriminate.
      + case_split_first; reflexivity.
      + case_split_first; simpl; discriminate.
    - repeat split; try discriminate; reflexivity. }
  split; [apply Hany|]. split; [apply Hany|]. split.
  - intros oid Hcast Habsent.
    unfold delete_api_gallery, try_catch, bind, Gallery.findByIdAndDelete.
    rewrite Hcast, split_first_none; [reflexivity|].
    intros d Hd. apply N.eqb_neq. now apply Habsent.
  - rewrite <- castObjectId_well_formed. split; apply Hany.
Qed.

(** An identifier of the wrong shape is answered with the error, a
    well-formed one that no document carries with success. *)
Lemma gallery_delete_examples :
  delete_api_gallery castObjectId "not-an-id" two_categories
  = (two_categories, mkResponse 500 (BError (CastError "not-an-id")))
  /\ delete_api_gallery castObjectId "507f1f77bcf86cd799439011" two_categories
     = (two_categories, mkResponse 200 BSuccess).
Proof. split; reflexivity. Qed.

(** ** Listing the gallery *)

Lemma insert_desc_perm (d : GalleryDoc) (l : list GalleryDoc) :
  Permutation (d :: l) (Gallery.insert_desc d l).
Proof.
  induction l as [|x t IH]; simpl; [apply Permutation_refl|].
  destruct (createdAt x <=? createdAt d)%N; [apply Permutation_refl|].
  eapply perm_trans; [apply perm_swap|]. now apply perm_skip.
Qed.

Lemma sort_desc_perm (l : list GalleryDoc) : Permutation l (Gallery.sort_desc l).
Proof.
  induction l as [|x t IH]; simpl; [constructor|].
  eapply perm_trans; [apply perm_skip, IH | apply insert_desc_perm].
Qed.

Lemma insert_desc_sorted (d : GalleryDoc) (l : list GalleryDoc) :
  StronglySorted newer_first l -> StronglySorted newer_first (Gallery.insert_desc d l).
Proof.
  induction l as [|x t IH]; intros Hs; simpl.
  - constructor; constructor.
  - inversion_clear Hs as [|? ? Ht Hx].
    destruct (N.leb_spec (createdAt x) (createdAt d)) as [Hle|Hlt].
    + constructor; [constructor; assumption|].
      constructor; [exact Hle|].
      eapply Forall_impl; [|exact Hx].
      intros y Hy. unfold newer_first in *. lia.
    + constructor; [now apply IH|].
      eapply Permutation_Forall; [apply insert_desc_perm|].
      constructor; [unfold newer_first; lia | assumption].
Qed.

Lemma sort_desc_sorted (l : list GalleryDoc) :
  StronglySorted newer_first (Gallery.sort_desc l).
Proof.
  induction l as [|x t IH]; simpl; [constructor | now apply insert_desc_sorted].
Qed.

Lemma sorted_three (a b c d1 d2 d3 : GalleryDoc) :
  (createdAt d1 < createdAt d2)%N -> (createdAt d2 < createdAt d3)%N ->
  Permutation [d1; d2; d3] [a; b; c] ->
  StronglySorted newer_first [a; b; c] ->
  [a; b; c] = [d3; d2; d1].
Proof.
  intros H12 H23 Hperm Hsorted.
  assert (H1 : In d1 [a; b; c]) by (eapply Permutation_in; [exact Hperm | simpl; auto]).
  assert (H2 : In d2 [a; b; c]) by (eapply Permutation_in; [exact Hperm | simpl; auto]).
  assert (H3 : In d3 [a; b; c]) by (eapply Permutation_in; [exact Hperm | simpl; auto]).
  inversion_clear Hsorted as [|? ? Hbc Ha].
  inversion_clear Hbc as [|? ? _ Hb].
  inversion_clear Ha as [|? ? Hab Ha']. inversion_clear Ha' as [|? ? Hac _].
  inversion_clear Hb as [|? ? Hbc _].
  unfold newer_first in *.
  simpl in H1, H2, H3.
  destruct H1 as [<-|[<-|[<-|[]]]], H2 as [<-|[<-|[<-|[]]]], H3 as [<-|[<-|[<-|[]]]];
    first [ reflexivity | exfalso; lia ].
Qed.

Lemma sorted_after (a : GalleryDoc) (l1 l2 : list GalleryDoc) :
  StronglySorted newer_first (l1 ++ a :: l2) -> Forall (newer_first a) l2.
Proof.
  induction l1 as [|x t IH]; simpl; intros Hs; inversion_clear Hs; auto.
Qed.

Lemma listed_before (items : list GalleryDoc) (a b : GalleryDoc) :
  StronglySorted newer_first items ->
  In a items -> In b items -> (createdAt a < createdAt b)%N ->
  exists l1 l2 l3, items = l1 ++ b :: l2 ++ a :: l3.
Proof.
  intros Hs Ha Hb Hlt.
  apply in_split in Ha as (l1 & l3 & ->).
  apply in_app_or in Hb as [Hb | [<- | Hb]].
  - apply in_split in Hb as (m1 & m2 & ->).
    exists m1, m2, l3. now rewrite <- app_assoc.
  - lia.
  - apply sorted_after in Hs.
    rewrite Forall_forall in Hs. specialize (Hs b Hb).
    unfold newer_first in Hs. lia.
Qed.

(** C9: [GET /api/gallery] answers with all the gallery documents, newest
    first: the listing is a rearrangement of the collection in which no
    document is followed by a more recent one, so of two documents the one
    created later is listed first; three documents created at [t1 < t2 < t3]
    are listed as [t3], [t2], [t1]. *)
Theorem gallery_list_newest_first (st : Store) :
  exists items,
    get_api_gallery st = (st, mkResponse 200 (BGalleryItems items))
    /\ Permutation (galleries st) items
    /\ StronglySorted newer_first items
    /\ (forall a b,
          In a (galleries st) -> In b (galleries st) ->
          (createdAt a < createdAt b)%N ->
          exists l1 l2 l3, items = l1 ++ b :: l2 ++ a :: l3)
    /\ (forall d1 d2 d3,
          Permutation [d1; d2; d3] (galleries st) ->
          (createdAt d1 < createdAt d2)%N -> (createdAt d2 < createdAt d3)%N ->
          items = [d3; d2; d1]).
Proof.
  exists (Gallery.sort_desc (galleries st)).
  pose proof (sort_desc_perm (galleries st)) as Hsp.
  pose proof (sort_desc_sorted (galleries st)) as Hss.
  split; [reflexivity|].
  split; [assumption|].
  split; [assumption|].
  split.
  - intros a b Ha Hb Hlt.
    apply listed_before; try assumption; eapply Permutation_in; eassumption.
  - intros d1 d2 d3 Hperm H12 H23.
    assert (Hall : Permutation [d1; d2; d3] (Gallery.sort_desc (galleries st)))
      by (eapply perm_trans; eassumption).
    pose proof (Permutation_length Hall) as Hlen.
    destruct (Gallery.sort_desc (galleries st)) as [|a [|b [|c [|e t]]]];
      try discriminate Hlen.
    now apply (sorted_three a b c d1 d2 d3).
Qed.

(** Three items posted one after the other, at increasing times, on an empty
    gallery, are listed last posted first. *)
Lemma gallery_posted_then_listed (g1 g2 g3 : GalleryFields) (t1 t2 t3 : Time) :
  gallery_valid g1 = true -> gallery_valid g2 = true -> gallery_valid g3 = true ->
  (t1 < t2)%N -> (t2 < t3)%N ->
  let st1 := fst (post_api_gallery g1 t1 empty_store) in
  let st2 := fst (post_api_gallery g2 t2 st1) in
  let st3 := fst (post_api_gallery g3 t3 st2) in
  snd (get_api_gallery st3) =
    mkResponse 200 (BGalleryItems
      [mkDoc 2%N (gallery_defaults g3) t3 t3;
       mkDoc 1%N (gallery_defaults g2) t2 t2;
       mkDoc 0%N (gallery_defaults g1) t1 t1]).
Proof.
  unfold gallery_valid. intros V1 V2 V3 H12 H23.
  unfold post_api_gallery, try_catch, bind, Gallery.create; simpl.
  destruct (gallerySchema_errors g1); [|discriminate]; simpl.
  destruct (gallerySchema_errors g2); [|discriminate]; simpl.
  destruct (gallerySchema_errors g3); [|discriminate]; simpl.
  unfold get_api_gallery, try_catch, bind, Gallery.find_sorted, Gallery.sort_desc; simpl.
  repeat match goal with
         | |- context [(?a <=? ?b)%N] =>
             destruct (N.leb_spec a b); [try lia | try lia]; simpl
         end.
  reflexivity.
Qed.

(** ** Upserting the promo *)

Lemma promo_eqb_eq (a b : PromoFields) : promo_eqb a b = true <-> a = b.
Proof.
  unfold promo_eqb. rewrite !andb_true_iff, !opt_eqb_eq.
  destruct a, b; simpl. split.
  - intros (((((-> & ->) & ->) & ->) & ->) & ->). reflexivity.
  - intros [= -> -> -> -> -> ->]. repeat split.
Qed.

Lemma merged_assign {A} (get : PromoFields -> option A) (u old new : PromoFields) :
  get new = over (get u) (get old) -> merged get u old new.
Proof. unfold merged. intros ->. destruct (get u); reflexivity. Qed.

(** C8, as stated, fails on [updatedAt]: the body names [title] only, and the
    saved document has a new [updatedAt]. *)
Lemma promo_upsert_restamps_updatedAt :
  exists p p',
    promos one_promo = [p]
    /\ promos (fst (put_api_promo title_only 9%N one_promo)) = [p']
    /\ updatedAt p' <> updatedAt p.
Proof.
  eexists; eexists. split; [reflexivity|]. split; [reflexivity|].
  simpl. discriminate.
Qed.

(** C8 (amended): with a promo document in the collection, [PUT /api/promo]
    merges the body into the first one and answers with it: each of the six
    schema paths takes the body's value when the body names it and keeps its
    previous value otherwise; [_id] and [createdAt] are kept, the other promo
    documents are untouched, and [updatedAt] is kept when the merge changed
    nothing and is the time of the save otherwise.  With no promo document, a
    new one is inserted from the body. *)
Theorem promo_upsert_merges (st : Store) (req_body : PromoFields) (now : Time) :
  (forall p rest, promos st = p :: rest ->
     exists p',
       put_api_promo req_body now st =
         (set_promos (p' :: rest) st, mkResponse 200 (BPromoDoc p'))
       /\ merged pr_tagText req_body (fields p) (fields p')
       /\ merged pr_title req_body (fields p) (fields p')
       /\ merged pr_description req_body (fields p) (fields p')
       /\ merged pr_highlightText req_body (fields p) (fields p')
       /\ merged pr_buttonText req_body (fields p) (fields p')
       /\ merged pr_buttonLink req_body (fields p) (fields p')
       /\ _id p' = _id p
       /\ createdAt p' = createdAt p
       /\ (fields p' = fields p -> updatedAt p' = updatedAt p)
       /\ (fields p' <> fields p -> updatedAt p' = now))
  /\ (promos st = [] ->
      let created := mkDoc (next_oid st) req_body now now in
      put_api_promo req_body now st =
        (bump_oid (set_promos [created] st), mkResponse 200 (BPromoDoc created))).
Proof.
  split.
  - intros p rest Hp.
    unfold put_api_promo, try_catch, bind, Promo.findOne, Promo.save.
    rewrite Hp; simpl.
    destruct (promo_eqb (assign_promo req_body (fields p)) (fields p)) eqn:Heq.
    + apply promo_eqb_eq in Heq.
      exists p. simpl. rewrite <- Hp.
      split; [destruct st; reflexivity|].
      repeat (split; [apply merged_assign; rewrite <- Heq at 1; reflexivity|]).
      split; [reflexivity|]. split; [reflexivity|].
      split; [intros _; reflexivity|].
      intros Hne. now contradiction Hne.
    + exists (mkDoc (_id p) (assign_promo req_body (fields p)) (createdAt p) now).
      simpl. rewrite Hp. simpl. rewrite N.eqb_refl.
      split; [reflexivity|].
      repeat (split; [apply merged_assign; reflexivity|]).
      split; [reflexivity|]. split; [reflexivity|].
      split; [|intros _; reflexivity].
      intros Hsame. apply promo_eqb_eq in Hsame. congruence.
  - intros Hempty.
    unfold put_api_promo, try_catch, bind, Promo.findOne, Promo.create.
    rewrite Hempty; simpl. rewrite Hempty. reflexivity.
Qed.

Lemma promo_upsert_merges_witness :
  exists p',
    put_api_promo title_only 9%N one_promo =
      (set_promos [p'] one_promo, mkResponse 200 (BPromoDoc p'))
    /\ pr_tagText (fields p') = Some "Sale"
    /\ pr_title (fields p') = Some "Summer"
    /\ createdAt p' = 1%N.
Proof.
  destruct (proj1 (promo_upsert_merges one_promo title_only 9%N) _ _ eq_refl)
    as (p' & Hput & Htag & Htitle & _ & _ & _ & _ & _ & Hcreated & _).
  exists p'. repeat split; assumption.
Defined.

(** ** Upserting a category twice *)

Lemma over_idem {A} (x y : option A) : over x (over x y) = over x y.
Proof. destruct x; reflexivity. Qed.

Lemma split_first_skip {A} (p : A -> bool) (pre post : list A) (d : A) :
  (forall x, In x pre -> p x = false) -> p d = false ->
  split_first p (pre ++ d :: post) =
    match split_first p post with
    | Some (a, y, b) => Some (pre ++ d :: a, y, b)
    | None => None
    end.
Proof.
  induction pre as [|x t IH]; intros Hpre Hd; simpl.
  - rewrite Hd. destruct (split_first p post) as [[[a y] b]|]; reflexivity.
  - rewrite (Hpre x (or_introl eq_refl)).
    rewrite IH; [|intros y Hy; apply Hpre; now right | assumption].
    destruct (split_first p post) as [[[a y] b]|]; reflexivity.
Qed.

Lemma id_taken_in (v : string) (d : CategoryDoc) (l : list CategoryDoc) :
  In d l -> c_id (fields d) = Some v -> id_taken (Some v) l = true.
Proof.
  intros Hin Hid. simpl. apply existsb_exists. exists d. split; [assumption|].
  unfold has_id. rewrite Hid. apply opt_eqb_refl.
Qed.

Lemma has_id_true (key : string) (d : CategoryDoc) :
  has_id key d = true <-> c_id (fields d) = Some key.
Proof. apply opt_eqb_eq. Qed.

Lemma same_product_refl (l : list Product) : Forall2 same_product l l.
Proof. induction l; constructor; [repeat split | assumption]. Qed.

Lemma cast_each_same (l : list Product) :
  forall o1 o2, Forall2 same_product (cast_each o1 l) (cast_each o2 l).
Proof.
  induction l as [|p t IH]; intros o1 o2; cbn [cast_each]; constructor;
    [repeat split | apply IH].
Qed.

(** Setting the paths of [u] on a document that already holds them changes
    the identifiers of the products at most. *)
Lemma set_again (o1 o2 : ObjectId) (u f : CategoryFields)
      (i : ObjectId) (c t1 t2 : Time) :
  over (c_id u) (c_id f) = c_id f ->
  over (c_type u) (c_type f) = c_type f ->
  over (c_title u) (c_title f) = c_title f ->
  over (c_description u) (c_description f) = c_description f ->
  over (c_image u) (c_image f) = c_image f ->
  (forall l, c_products u = Some l -> c_products f = Some (cast_each o1 l)) ->
  rewritten u (mkDoc i f c t1) (mkDoc i (set_category o2 u f) c t2).
Proof.
  intros Hid Hty Hti Hde Him Hpr.
  unfold rewritten. cbn [_id createdAt fields set_category c_id c_type c_title
                           c_description c_image c_products].
  repeat (split; [first [reflexivity | assumption]|]).
  split.
  - intros ->. reflexivity.
  - destruct (c_products u) as [l|]; cbn [cast_products over].
    + rewrite (Hpr l eq_refl). apply cast_each_same.
    + destruct (c_products f); [apply same_product_refl | exact I].
Qed.

Lemma put_category_result (key : string) (u : CategoryFields) (now : Time) (st : Store) :
  put_api_category key u now st =
    match Category.findOneAndUpdate key u now st with
    | (st', Resolved d) => (st', mkResponse 200 (BCategory d))
    | (st', Rejected e) => (st', mkResponse 500 (BError e))
    end.
Proof.
  unfold put_api_category, try_catch, bind.
  destruct (Category.findOneAndUpdate key u now st) as [st' [d|e]]; reflexivity.
Qed.

Lemma put_api_category_store (key : string) (u : CategoryFields) (t : Time) (st : Store) :
  fst (put_api_category key u t st) = fst (Category.findOneAndUpdate key u t st).
Proof.
  rewrite put_category_result.
  destruct (Category.findOneAndUpdate key u t st) as [st' [d|e]]; reflexivity.
Qed.

(** The second of two identical upserts is either rejected, changing
    nothing, or writes again the document the first one wrote. *)
Lemma findOneAndUpdate_twice (st : Store) (key : string) (u : CategoryFields) (t1 t2 : Time) :
  let first := Category.findOneAndUpdate key u t1 st in
  let second := Category.findOneAndUpdate key u t2 (fst first) in
  ((exists e, snd second = Rejected e) /\ fst second = fst first)
  \/ (exists pre d d' post,
        categories (fst first) = pre ++ d :: post
        /\ categories (fst second) = pre ++ d' :: post
        /\ snd first = Resolved d
        /\ snd second = Resolved d'
        /\ updatedAt d = t1 /\ updatedAt d' = t2
        /\ rewritten u d d'
        /\ promos (fst second) = promos (fst first)
        /\ galleries (fst second) = galleries (fst first)).
Proof.
  cbv zeta. unfold Category.findOneAndUpdate.
  destruct (categorySchema_update_errors u) as [|e errs];
    [|left; split; [eexists|]; reflexivity].
  destruct (split_first (has_id key) (categories st)) as [[[pre d] post]|] eqn:Hsp.
  - destruct (split_first_some _ _ _ _ _ Hsp) as (Hcats & Hd & Hpre).
    apply has_id_true in Hd. cbv zeta.
    set (f1 := set_category (next_oid st) u (fields d)).
    destruct (negb (opt_eqb (c_id f1) (c_id (fields d)))
              && id_taken (c_id f1) (pre ++ post)) eqn:Hdup.
    + left. cbn [fst]. rewrite Hsp. cbv zeta. fold f1. rewrite Hdup.
      split; [eexists|]; reflexivity.
    + cbn [fst categories take_oids set_categories next_oid].
      remember (mkDoc (_id d) f1 (createdAt d) t1) as d1 eqn:Ed1.
      destruct (has_id key d1) eqn:Hd1.
      * rewrite (split_first_found _ pre post d1 Hpre Hd1).
        subst d1; cbn [fields _id createdAt].
        assert (Hsame : c_id (set_category (next_oid st + subdocuments (c_products u))%N u f1)
                        = c_id f1)
          by (subst f1; cbn [set_category c_id]; apply over_idem).
        rewrite Hsame, opt_eqb_refl. cbn [negb andb fst snd].
        right. eexists pre, _, _, post.
        cbn [categories promos galleries take_oids set_categories updatedAt].
        do 6 (split; [reflexivity|]).
        split; [|split; reflexivity].
        subst f1. apply (set_again (next_oid st)); cbn [set_category c_id c_type c_title
          c_description c_image c_products]; try apply over_idem.
        intros l ->. reflexivity.
      * left.
        assert (Hv : exists v, c_id u = Some v /\ v <> key).
        { unfold has_id in Hd1. apply opt_eqb_neq in Hd1. subst d1 f1; simpl in Hd1.
          rewrite Hd in Hd1. destruct (c_id u) as [v|]; simpl in Hd1; [|congruence].
          exists v. split; [reflexivity | congruence]. }
        destruct Hv as (v & Hu & Hne).
        assert (Hidd1 : c_id (fields d1) = Some v)
          by (subst d1 f1; simpl; rewrite Hu; reflexivity).
        rewrite (split_first_skip _ pre post d1 Hpre Hd1).
        destruct (split_first (has_id key) post) as [[[a y] b]|] eqn:Hpost.
        -- destruct (split_first_some _ _ _ _ _ Hpost) as (_ & Hy & _).
           apply has_id_true in Hy.
           assert (Hf : c_id (set_category (next_oid st + subdocuments (c_products u))%N
                                           u (fields y)) = Some v)
             by (simpl; rewrite Hu; reflexivity).
           assert (Hchanged : opt_eqb (Some v) (Some key) = false)
             by (apply opt_eqb_neq; congruence).
           rewrite Hf, Hy, Hchanged.
           rewrite (id_taken_in v d1);
             [split; [eexists|]; reflexivity | | assumption].
           rewrite <- app_assoc. apply in_or_app. right. now left.
        -- assert (Hf : c_id (products_default
                                (set_category
                                   (N.succ (next_oid st + subdocuments (c_products u))%N) u
                                   (mkCategory (Some key) None None None None None)))
                        = Some v)
             by (simpl; rewrite Hu; reflexivity).
           rewrite Hf.
           rewrite (id_taken_in v d1);
             [split; [eexists|]; reflexivity | | assumption].
           apply in_or_app. right. now left.
  - pose proof (split_first_is_none _ _ Hsp) as Hnone. cbv zeta.
    set (base := mkCategory (Some key) None None None None None).
    set (f1 := products_default (set_category (N.succ (next_oid st)) u base)).
    destruct (id_taken (c_id f1) (categories st)) eqn:Hdup.
    + left. cbn [fst]. rewrite Hsp. cbv zeta. fold base. fold f1. rewrite Hdup.
      split; [eexists|]; reflexivity.
    + cbn [fst categories take_oids set_categories next_oid].
      remember (mkDoc (next_oid st) f1 t1 t1) as d1 eqn:Ed1.
      destruct (has_id key d1) eqn:Hd1.
      * rewrite (split_first_found _ (categories st) [] d1 Hnone Hd1).
        subst d1; cbn [fields _id createdAt].
        assert (Hsame : c_id (set_category
                                (next_oid st + (1 + subdocuments (c_products u)))%N u f1)
                        = c_id f1)
          by (subst f1; cbn [products_default set_category c_id]; apply over_idem).
        rewrite Hsame, opt_eqb_refl. cbn [negb andb fst snd].
        right. eexists (categories st), _, _, [].
        cbn [categories promos galleries take_oids set_categories updatedAt].
        do 6 (split; [reflexivity|]).
        split; [|split; reflexivity].
        subst f1. apply (set_again (N.succ (next_oid st)));
          cbn [products_default set_category c_id c_type c_title
                 c_description c_image c_products]; try apply over_idem.
        intros l ->. reflexivity.
      * left.
        rewrite (split_first_skip _ (categories st) [] d1 Hnone Hd1).
        cbn [split_first]. fold base.
        assert (Hv : exists v, c_id f1 = Some v).
        { subst f1. simpl. destruct (c_id u) as [v|]; simpl; eauto. }
        destruct Hv as (v & Hv).
        assert (Hf : c_id (products_default
                             (set_category
                                (N.succ (next_oid st + (1 + subdocuments (c_products u)))%N)
                                u base)) = Some v)
          by (rewrite <- Hv; reflexivity).
        rewrite Hf.
        rewrite (id_taken_in v d1);
          [split; [eexists|]; reflexivity | | subst d1; exact Hv].
        apply in_or_app. right. now left.
Qed.

(** When the body does not move the document to another [id], a second
    identical upsert succeeds when the first did. *)
Lemma findOneAndUpdate_again (st : Store) (key : string) (u : CategoryFields) (t1 t2 : Time) :
  c_id u = None \/ c_id u = Some key ->
  (exists d, snd (Category.findOneAndUpdate key u t1 st) = Resolved d) ->
  exists d', snd (Category.findOneAndUpdate key u t2
                    (fst (Category.findOneAndUpdate key u t1 st))) = Resolved d'.
Proof.
  intros Hkey (d0 & Hfirst). revert Hfirst.
  unfold Category.findOneAndUpdate.
  destruct (categorySchema_update_errors u) as [|p errs]; [|discriminate].
  assert (Hover : over (c_id u) (Some key) = Some key)
    by (destruct Hkey as [-> | ->]; reflexivity).
  destruct (split_first (has_id key) (categories st)) as [[[pre d] post]|] eqn:Hsp.
  - destruct (split_first_some _ _ _ _ _ Hsp) as (Hcats & Hd & Hpre).
    apply has_id_true in Hd. cbv zeta.
    assert (Hid : c_id (set_category (next_oid st) u (fields d)) = c_id (fields d))
      by (cbn [set_category c_id]; rewrite Hd; exact Hover).
    rewrite Hid, opt_eqb_refl.
    cbn [negb andb snd fst categories take_oids set_categories next_oid].
    intros _.
    rewrite (split_first_found _ pre post); [|assumption|].
    + cbn [fields].
      assert (Hid2 : c_id (set_category (next_oid st + subdocuments (c_products u))%N u
                             (set_category (next_oid st) u (fields d)))
                     = c_id (set_category (next_oid st) u (fields d)))
        by (cbn [set_category c_id]; apply over_idem).
      rewrite Hid2, opt_eqb_refl. cbn [negb andb snd]. eexists. reflexivity.
    + apply has_id_true. cbn [fields]. now rewrite Hid.
  - pose proof (split_first_is_none _ _ Hsp) as Hnone. cbv zeta.
    set (base := mkCategory (Some key) None None None None None).
    assert (Hid : c_id (products_default (set_category (N.succ (next_oid st)) u base))
                  = Some key)
      by (cbn [products_default set_category c_id base]; exact Hover).
    rewrite Hid.
    destruct (id_taken (Some key) (categories st)); [discriminate|].
    cbn [snd fst categories take_oids set_categories next_oid]. intros _.
    rewrite (split_first_found _ (categories st) []); [|assumption|].
    + cbn [fields].
      assert (Hid2 : c_id (set_category (next_oid st + (1 + subdocuments (c_products u)))%N
                             u (products_default
                                  (set_category (N.succ (next_oid st)) u base)))
                     = c_id (products_default
                               (set_category (N.succ (next_oid st)) u base)))
        by (cbn [products_default set_category c_id]; apply over_idem).
      rewrite Hid2, opt_eqb_refl. cbn [negb andb snd]. eexists. reflexivity.
    + apply has_id_true. cbn [fields]. exact Hid.
Qed.

(** C5, as stated, fails on [updatedAt]: the same upsert at time 1 and again
    at time 2 leaves a document that differs from the one left by the upsert
    at time 1 alone. *)
Lemma upsert_twice_differs_in_updatedAt :
  exists d1 d2,
    categories (fst (put_api_category "casement" windows_category 1%N empty_store)) = [d1]
    /\ categories
         (fst (put_api_category "casement" windows_category 2%N
                 (fst (put_api_category "casement" windows_category 1%N empty_store))))
       = [d2]
    /\ d2 <> d1.
Proof.
  eexists; eexists. split; [reflexivity|]. split; [reflexivity|]. discriminate.
Qed.

(** C5 (amended): a second [PUT /api/category/:id] with the same key and
    body either is rejected and changes nothing, or answers with the
    document the first one wrote, written again in its place: the same
    [_id], [createdAt] and paths, [updatedAt] set to the time of the second
    call and, when the body names [products], each product under a newly
    drawn [_id]; every other document, the promos and the gallery are as the
    first call left them.  It is not rejected when the first call succeeded
    and the body names no other [id] than the route's. *)
Theorem upsert_twice_same_up_to_generated
        (st : Store) (id : string) (req_body : CategoryFields) (t1 t2 : Time) :
  let first := put_api_category id req_body t1 st in
  let second := put_api_category id req_body t2 (fst first) in
  ((status (snd second) = 500%N /\ fst second = fst first)
   \/ (exists pre d d' post,
         categories (fst first) = pre ++ d :: post
         /\ categories (fst second) = pre ++ d' :: post
         /\ snd first = mkResponse 200 (BCategory d)
         /\ snd second = mkResponse 200 (BCategory d')
         /\ updatedAt d = t1 /\ updatedAt d' = t2
         /\ rewritten req_body d d'
         /\ promos (fst second) = promos (fst first)
         /\ galleries (fst second) = galleries (fst first)))
  /\ (status (snd first) = 200%N ->
      c_id req_body = None \/ c_id req_body = Some id ->
      status (snd second) = 200%N).
Proof.
  cbv zeta. rewrite !put_api_category_store, !put_category_result.
  split.
  - destruct (findOneAndUpdate_twice st id req_body t1 t2)
      as [[(e & Hrej) Hsame] | (pre & d & d' & post & H1 & H2 & H3 & H4 & Hrest)].
    + left. revert Hrej Hsame.
      destruct (Category.findOneAndUpdate id req_body t2
                  (fst (Category.findOneAndUpdate id req_body t1 st))) as [s2 [x|e2]];
        cbn [fst snd status]; [discriminate | auto].
    + right. exists pre, d, d', post. revert H1 H2 H3 H4 Hrest.
      destruct (Category.findOneAndUpdate id req_body t1 st) as [s1 [x1|e1]];
        cbn [fst snd]; intros H1 H2 H3; [|discriminate H3].
      destruct (Category.findOneAndUpdate id req_body t2 s1) as [s2 [x2|e2]];
        cbn [fst snd]; intros H4 Hrest; [|discriminate H4].
      injection H3 as ->. injection H4 as ->.
      repeat (split; [first [assumption | reflexivity | apply Hrest]|]).
      apply Hrest.
  - intros Hfirst Hkey.
    destruct (findOneAndUpdate_again st id req_body t1 t2 Hkey) as (d' & Hd').
    + revert Hfirst.
      destruct (Category.findOneAndUpdate id req_body t1 st) as [s1 [x1|e1]];
        cbn [snd status]; [eauto | discriminate].
    + revert Hd'.
      destruct (Category.findOneAndUpdate id req_body t2
                  (fst (Category.findOneAndUpdate id req_body t1 st))) as [s2 [x|e2]];
        cbn [snd status]; [reflexivity | discriminate].
Qed.

(** ** Syncing the categories *)

Fixpoint minimize_plain (m : Mixed) {struct m} :
  plain m = true -> forall array_child, minimize array_child m = Some m.
Proof.
  destruct m as [| b | x | s | l | kv]; intros Hplain array_child; try reflexivity.
  - cbn [minimize]. do 2 f_equal. cbn [plain] in Hplain. revert Hplain.
    induction l as [|v t IH]; intros Hplain; [reflexivity|].
    apply andb_true_iff in Hplain as [Hv Ht].
    rewrite (minimize_plain v Hv true). f_equal. now apply IH.
  - cbn [plain] in Hplain. apply andb_true_iff in Hplain as [Hkeys Hall].
    cbn [minimize].
    assert (Hkept : (fix keys (l : list (string * Mixed)) : list (string * Mixed) :=
                       match l with
                       | [] => []
                       | (k, v) :: t =>
                           match minimize false v with
                           | Some v' => (k, v') :: keys t
                           | None => keys t
                           end
                       end) kv = kv).
    { clear Hkeys. revert Hall.
      induction kv as [|[k v] t IH]; intros Hall; [reflexivity|].
      apply andb_true_iff in Hall as [Hv Ht].
      rewrite (minimize_plain v Hv false). f_equal. now apply IH. }
    rewrite Hkept. destruct kv; [discriminate Hkeys | reflexivity].
Qed.

Lemma cast_each_stored (l : list Product) :
  forall oid, Forall2 product_stored l (cast_each oid l).
Proof.
  induction l as [|p t IH]; intros oid; cbn [cast_each]; constructor; [|apply IH].
  unfold product_stored, cast_product.
  cbn [p__id p_id p_title p_description p_longDescription p_image p_specs present].
  do 6 (split; [reflexivity|]).
  split; [intros o ->; reflexivity|].
  split; [intros ->; reflexivity|].
  intros m -> Hplain. cbn [stored_specs]. now apply minimize_plain.
Qed.

Lemma category_document_stored (oid : ObjectId) (c : CategoryFields) :
  category_stored c (category_document oid c).
Proof.
  unfold category_stored, category_document, products_default, cast_category.
  cbn [c_id c_type c_title c_description c_image c_products].
  do 5 (split; [reflexivity|]).
  destruct (c_products c) as [l|]; cbn [cast_products default].
  - eexists. split; [reflexivity | apply cast_each_stored].
  - eexists. split; [reflexivity | constructor].
Qed.

Lemma stamp_categories_stored (clock : nat -> Time) (l : list CategoryFields) :
  forall oid k,
    Forall2 (fun c d => category_stored c (fields d)) l (stamp_categories oid k clock l).
Proof.
  induction l as [|c t IH]; intros oid k; cbn [stamp_categories]; constructor;
    [apply category_document_stored | apply IH].
Qed.

Lemma stamp_categories_createdAt (clock : nat -> Time) (l : list CategoryFields) :
  forall oid k,
    map (@createdAt _) (stamp_categories oid k clock l) = map clock (seq k (length l)).
Proof.
  induction l as [|c t IH]; intros oid k; cbn [stamp_categories map length seq];
    [reflexivity|].
  cbn [createdAt]. now rewrite IH.
Qed.

Lemma stamp_categories_fresh (clock : nat -> Time) (l : list CategoryFields) :
  forall oid k d, In d (stamp_categories oid k clock l) -> (oid <= _id d)%N.
Proof.
  induction l as [|c t IH]; intros oid k d; cbn [stamp_categories]; [intros []|].
  intros [<-|Hin]; cbn [_id]; [lia|].
  apply IH in Hin. lia.
Qed.

Lemma valid_category_has_id (c : CategoryFields) :
  categorySchema_errors c = [] -> exists s, c_id c = Some s.
Proof.
  unfold categorySchema_errors. intros H.
  apply app_eq_nil in H as [H _].
  destruct (c_id c) as [s|]; [eauto | discriminate H].
Qed.

Lemma category_valid_errors (c : CategoryFields) :
  category_valid c = true <-> categorySchema_errors c = [].
Proof.
  unfold category_valid. destruct (categorySchema_errors c); simpl; split; congruence.
Qed.

Lemma id_taken_app (v : option string) (l1 l2 : list CategoryDoc) :
  id_taken v (l1 ++ l2) = id_taken v l1 || id_taken v l2.
Proof. destruct v; simpl; [apply existsb_app | reflexivity]. Qed.

Lemma for_each_app {A} (f : nat -> A -> Async unit) (l1 l2 : list A) :
  forall k st,
    for_each f k (l1 ++ l2) st =
      match for_each f k l1 st with
      | (st', Resolved _) => for_each f (k + length l1) l2 st'
      | (st', Rejected e) => (st', Rejected e)
      end.
Proof.
  induction l1 as [|x t IH]; intros k st; cbn [app for_each length].
  - now rewrite Nat.add_0_r.
  - unfold bind. destruct (f k x st) as [st1 [[]|e]]; [|reflexivity].
    rewrite IH. now rewrite Nat.add_succ_r.
Qed.

(** Valid documents with distinct keys, none of them in the collection yet,
    are all inserted, in order. *)
Lemma create_each_all (clock : nat -> Time) (l : list CategoryFields) :
  forall k st,
    Forall (fun c => category_valid c = true) l ->
    NoDup (map c_id l) ->
    (forall c, In c l -> id_taken (c_id c) (categories st) = false) ->
    for_each (create_each clock) k l st =
      (mkStore (categories st ++ stamp_categories (next_oid st) k clock l)
               (promos st) (galleries st) (next_oid st + oids_used l)%N,
       Resolved tt).
Proof.
  induction l as [|c t IH]; intros k st Hvalid Hnodup Hfree.
  - simpl. unfold ret. rewrite app_nil_r, N.add_0_r. destruct st; reflexivity.
  - inversion_clear Hvalid as [|? ? Hc Ht]. apply category_valid_errors in Hc.
    simpl in Hnodup. inversion_clear Hnodup as [|? ? Hnotin Hnodup'].
    cbn [for_each]. unfold bind at 1. unfold create_each at 1.
    unfold bind at 1. unfold Category.create. rewrite Hc.
    rewrite (Hfree c (or_introl eq_refl)). cbv zeta. unfold ret at 1.
    rewrite IH; [| assumption | assumption |].
    + cbn [categories promos galleries next_oid take_oids set_categories
               stamp_categories oids_used].
      f_equal. f_equal.
      * rewrite <- app_assoc. reflexivity.
      * lia.
    + intros c' Hc'.
      cbn [categories take_oids set_categories].
      rewrite id_taken_app, (Hfree c' (or_intror Hc')). simpl.
      destruct (c_id c') as [s|] eqn:Hid; simpl; [|reflexivity].
      rewrite orb_false_r. unfold has_id; simpl.
      apply opt_eqb_neq. intros Heq. apply Hnotin.
      rewrite Heq, <- Hid. now apply in_map.
Qed.

Lemma id_taken_stamped (clock : nat -> Time) (l : list CategoryFields) (c : CategoryFields) :
  forall oid k s,
    In c l -> c_id c = Some s ->
    id_taken (Some s) (stamp_categories oid k clock l) = true.
Proof.
  induction l as [|x t IH]; intros oid k s Hin Hid; [destruct Hin|].
  destruct Hin as [->|Hin].
  - cbn [stamp_categories id_taken existsb]. unfold has_id at 1.
    cbn [fields category_document products_default cast_category c_id].
    rewrite Hid, opt_eqb_refl. reflexivity.
  - cbn [stamp_categories id_taken existsb]. cbn [id_taken] in IH.
    rewrite (IH _ _ s Hin Hid). apply orb_true_r.
Qed.

Lemma sync_loop_prefix (st : Store) (clock : nat -> Time) (pre : list CategoryFields) :
  Forall (fun c => category_valid c = true) pre ->
  NoDup (map c_id pre) ->
  for_each (create_each clock) 0 pre (set_categories [] st) =
    (synced_prefix st clock pre, Resolved tt).
Proof.
  intros Hvalid Hnodup.
  rewrite create_each_all; [reflexivity | assumption | assumption |].
  intros c _. destruct (c_id c); reflexivity.
Qed.

Lemma sync_fails_at (st : Store) (clock : nat -> Time)
      (pre : list CategoryFields) (c : CategoryFields) (post : list CategoryFields) :
  Forall (fun x => category_valid x = true) pre ->
  NoDup (map c_id pre) ->
  category_valid c = false \/ In (c_id c) (map c_id pre) ->
  exists e,
    post_api_products_sync (mkProductsSync (Some (pre ++ c :: post))) clock st =
      (synced_prefix st clock pre, mkResponse 500 (BError e)).
Proof.
  intros Hvalid Hnodup Hfail.
  unfold post_api_products_sync, try_catch. cbn [sync_categories].
  unfold bind at 1. unfold Category.deleteMany at 1.
  unfold bind at 1. unfold for_of.
  change (fun (k : nat) (cat : CategoryFields) => Category.create cat (clock k);;; ret tt)
    with (create_each clock).
  rewrite for_each_app, sync_loop_prefix by assumption.
  cbn [for_each]. unfold bind at 1. unfold create_each at 1. unfold bind at 1.
  unfold Category.create.
  destruct (categorySchema_errors c) as [|p errs] eqn:Herr.
  - destruct Hfail as [Hinvalid | Hdup].
    + apply category_valid_errors in Herr. congruence.
    + destruct (valid_category_has_id c Herr) as (s & Hs).
      apply in_map_iff in Hdup as (x & Hx & Hin).
      rewrite Hs in Hx.
      cbn [categories synced_prefix]. rewrite Hs.
      rewrite (id_taken_stamped clock pre x _ _ s Hin Hx).
      eexists. reflexivity.
  - eexists. reflexivity.
Qed.

(** C2: when [POST /api/products/sync] fails on a document of its input (the
    documents before it being valid, with distinct keys, so inserted), it
    answers 500 and the collection holds the documents inserted from the
    prefix before the failing one, one stored document per element, in
    order, each holding the element's paths and stamped at its insertion,
    and nothing else: no document that was in the collection before the sync
    is left. *)
Theorem sync_failure_keeps_inserted_prefix
        (st : Store) (clock : nat -> Time)
        (pre : list CategoryFields) (c : CategoryFields) (post : list CategoryFields) :
  (forall d, In d (categories st) -> (_id d < next_oid st)%N) ->
  Forall (fun x => category_valid x = true) pre ->
  NoDup (map c_id pre) ->
  category_valid c = false \/ In (c_id c) (map c_id pre) ->
  let (st', r) :=
    post_api_products_sync (mkProductsSync (Some (pre ++ c :: post))) clock st in
  status r = 500%N
  /\ (exists e, body r = BError e)
  /\ Forall2 (fun x d => category_stored x (fields d)) pre (categories st')
  /\ map (@createdAt _) (categories st') = map clock (seq 0 (length pre))
  /\ (forall d, In d (categories st) -> ~ In d (categories st')).
Proof.
  intros Hwf Hvalid Hnodup Hfail.
  destruct (sync_fails_at st clock pre c post Hvalid Hnodup Hfail) as (e & ->).
  cbn [status body categories synced_prefix].
  split; [reflexivity|]. split; [eauto|].
  split; [apply stamp_categories_stored|].
  split; [apply stamp_categories_createdAt|].
  intros d Hold Hnew.
  apply stamp_categories_fresh in Hnew. apply Hwf in Hold. lia.
Qed.

Lemma sync_failure_keeps_inserted_prefix_witness :
  let (st', r) :=
    post_api_products_sync
      (mkProductsSync (Some ([doors_category] ++ doors_category :: [windows_category])))
      N.of_nat two_categories in
  status r = 500%N
  /\ (exists e, body r = BError e)
  /\ Forall2 (fun x d => category_stored x (fields d)) [doors_category] (categories st')
  /\ map (@createdAt _) (categories st') = map N.of_nat (seq 0 1)
  /\ (forall d, In d (categories two_categories) -> ~ In d (categories st')).
Proof.
  apply (sync_failure_keeps_inserted_prefix two_categories N.of_nat
           [doors_category] doors_category [windows_category]).
  - intros d [<-|[<-|[]]]; simpl; lia.
  - repeat constructor.
  - constructor; [intros [] | constructor].
  - right. simpl. now left.
Defined.

(** ** Sync, then list *)

Lemma stamp_all_fields (oid : ObjectId) (clock : nat -> Time) (l : list GalleryFields) :
  forall k, map (@fields _) (Gallery.stamp_all oid k clock l) = map gallery_defaults l.
Proof.
  revert oid; induction l as [|g t IH]; intros oid k; simpl; [reflexivity|].
  now rewrite IH.
Qed.

Lemma stamp_all_length (oid : ObjectId) (clock : nat -> Time) (l : list GalleryFields) :
  forall k, length (Gallery.stamp_all oid k clock l) = length l.
Proof.
  revert oid; induction l as [|g t IH]; intros oid k; simpl; [reflexivity|].
  now rewrite IH.
Qed.

Lemma first_invalid_none (l : list GalleryFields) :
  Forall (fun g => gallery_valid g = true) l -> Gallery.first_invalid l = [].
Proof.
  induction 1 as [|g t Hg _ IH]; simpl; [reflexivity|].
  unfold gallery_valid in Hg.
  destruct (gallerySchema_errors g); [assumption | discriminate].
Qed.

Lemma stamp_all_stored (clock : nat -> Time) (l : list GalleryFields) :
  forall oid k,
    Forall2 (fun g d => gallery_stored g (fields d)) l (Gallery.stamp_all oid k clock l).
Proof.
  induction l as [|g t IH]; intros oid k; cbn [Gallery.stamp_all]; constructor;
    [|apply IH].
  unfold gallery_stored. cbn [fields gallery_defaults g_url g_title g_location g_category].
  do 3 (split; [reflexivity|]).
  destruct (g_category g); reflexivity.
Qed.

Lemma Forall2_map_right {A B C} (R : A -> B -> Prop) (f : C -> B) (l : list A) (l' : list C) :
  Forall2 (fun a c => R a (f c)) l l' -> Forall2 R l (map f l').
Proof. induction 1; cbn [map]; constructor; assumption. Qed.

(** C1, as stated, fails on a sequence of valid documents that repeats a key:
    the second insertion is refused by the unique index, the sync answers
    500, and the listing holds one document where the sequence has two.  It
    also fails on a product whose [specs] are the empty object: the sync
    answers 200 and the listed product has no [specs]. *)
Lemma sync_then_list_repeated_key :
  (Forall (fun c => category_valid c = true) duplicated_categories
   /\ exists st' docs,
        post_api_products_sync (mkProductsSync (Some duplicated_categories))
                                N.of_nat empty_store
        = (st', mkResponse 500 (BError (DuplicateKey "id" "casement")))
        /\ get_api_products st' = (st', mkResponse 200 (BCategories docs))
        /\ length docs = 1%nat
        /\ length duplicated_categories = 2%nat)
  /\ (Forall (fun c => category_valid c = true) [empty_specs_category]
      /\ exists st' d p,
           post_api_products_sync (mkProductsSync (Some [empty_specs_category]))
                                   N.of_nat empty_store
           = (st', mkResponse 200 (BMessage "Synced 1 categories"))
           /\ get_api_products st' = (st', mkResponse 200 (BCategories [d]))
           /\ c_products (fields d) = Some [p]
           /\ p_specs p = None
           /\ c_products empty_specs_category
              = Some [mkProduct None (Some "cs-1") (Some "Flush") None None None
                                (Some (MObj []))]).
Proof.
  split.
  - split; [repeat constructor|].
    eexists; eexists. repeat split.
  - split; [repeat constructor|].
    eexists; eexists; eexists. repeat split.
Qed.

(** C1 (amended): after [POST /api/products/sync] with valid documents whose
    [id]s are pairwise distinct, [GET /api/products] answers with one document
    per element of the sequence, in order, holding the element's paths:
    [products] is the empty array when the element names none, each product
    is stored under an [_id], without [specs] when it names none and with
    the given [specs] when no object in them is empty.  After
    [POST /api/gallery/sync] with valid items, [GET /api/gallery] answers
    with one document per item, holding the item's paths ([category] being
    ["General"] when the item names none), in the order of the listing.
    Both hold for the empty sequence. *)
Theorem sync_then_list_returns_documents (st : Store) (clock : nat -> Time) :
  (forall X,
      Forall (fun c => category_valid c = true) X ->
      NoDup (map c_id X) ->
      let (st', r) := post_api_products_sync (mkProductsSync (Some X)) clock st in
      r = mkResponse 200
            (BMessage ("Synced " ++ decimal (length X) ++ " categories")%string)
      /\ exists docs,
           get_api_products st' = (st', mkResponse 200 (BCategories docs))
           /\ Forall2 (fun x d => category_stored x (fields d)) X docs)
  /\
  (forall Y,
      Forall (fun g => gallery_valid g = true) Y ->
      let (st', r) := post_api_gallery_sync (mkGallerySync (Some Y)) clock st in
      r = mkResponse 200 (BCount (length Y))
      /\ exists items stored,
           get_api_gallery st' = (st', mkResponse 200 (BGalleryItems items))
           /\ Permutation (map (@fields _) items) stored
           /\ Forall2 gallery_stored Y stored).
Proof.
  split.
  - intros X Hvalid Hnodup.
    unfold post_api_products_sync, try_catch. cbn [sync_categories].
    unfold bind at 1. unfold Category.deleteMany at 1.
    unfold bind at 1. unfold for_of.
    change (fun (k : nat) (cat : CategoryFields) => Category.create cat (clock k);;; ret tt)
      with (create_each clock).
    rewrite sync_loop_prefix by assumption.
    unfold bind, js_length, json, ret.
    split; [reflexivity|].
    exists (stamp_categories (next_oid st) 0 clock X).
    split; [reflexivity | apply stamp_categories_stored].
  - intros Y Hvalid.
    unfold post_api_gallery_sync, try_catch. cbn [sync_items].
    unfold bind at 1. unfold Gallery.deleteMany at 1.
    unfold bind at 1. unfold Gallery.insertMany.
    rewrite first_invalid_none by assumption.
    cbv zeta. unfold json, ret. cbn [galleries set_galleries app].
    rewrite stamp_all_length.
    split; [reflexivity|].
    eexists. exists (map (@fields _) (Gallery.stamp_all (next_oid st) 0 clock Y)).
    split; [reflexivity|].
    cbn [galleries].
    split; [apply Permutation_map, Permutation_sym, sort_desc_perm|].
    apply Forall2_map_right, stamp_all_stored.
Qed.

Lemma sync_then_list_returns_documents_witness :
  (let (st', r) :=
     post_api_products_sync (mkProductsSync (Some [windows_category; doors_category]))
                            N.of_nat two_categories in
   r = mkResponse 200 (BMessage "Synced 2 categories")
   /\ exists docs,
        get_api_products st' = (st', mkResponse 200 (BCategories docs))
        /\ Forall2 (fun x d => category_stored x (fields d))
                   [windows_category; doors_category] docs)
  /\
  (let (st', r) := post_api_gallery_sync (mkGallerySync (Some two_items))
                                         N.of_nat two_categories in
   r = mkResponse 200 (BCount 2)
   /\ exists items stored,
        get_api_gallery st' = (st', mkResponse 200 (BGalleryItems items))
        /\ Permutation (map (@fields _) items) stored
        /\ Forall2 gallery_stored two_items stored).
Proof.
  destruct (sync_then_list_returns_documents two_categories N.of_nat) as [Hcat Hgal].
  split.
  - apply (Hcat [windows_category; doors_category]).
    + repeat constructor.
    + constructor; [simpl; intros [H|[]]; discriminate H|].
      constructor; [intros [] | constructor].
  - apply (Hgal two_items). repeat constructor.
Defined.

(** * Further properties of the handlers *)

(** ** Stores of the handlers *)

Lemma try_catch_bind_store {A} (m : Async A) (k : A -> Response) (st : Store) :
  fst (try_catch (bind m (fun x => ret (k x))) st) = fst (m st).
Proof.
  unfold try_catch, bind, ret. destruct (m st) as [st' [a|e]]; reflexivity.
Qed.

Lemma existsb_false_all {A} (p : A -> bool) (l : list A) :
  existsb p l = false <-> (forall x, In x l -> p x = false).
Proof.
  induction l as [|x t IH]; simpl.
  - split; [intros _ y [] | reflexivity].
  - rewrite orb_false_iff, IH. split.
    + intros [Hx Ht] y [<-|Hy]; auto.
    + intros H. split; [apply H; now left | intros y Hy; apply H; now right].
Qed.

Lemma id_taken_false_notin (s : string) (l : list CategoryDoc) :
  id_taken (Some s) l = false <-> ~ In (Some s) (map key_of l).
Proof.
  simpl. rewrite existsb_false_all, in_map_iff. split.
  - intros H (d & Hd & Hin). apply H in Hin.
    unfold has_id in Hin. apply opt_eqb_neq in Hin. now apply Hin.
  - intros H d Hin. apply has_id_false. intros Hd. apply H. now exists d.
Qed.

(** ** Creating a category *)

(** [POST /api/category] answers 201 exactly when the body passes the
    schema's validation and its [id] is not in the collection; the created
    document holds the body's paths ([products] being the empty array when
    the body names none, each product under an [_id], its [specs] as given
    when no object in them is empty), stamped with the time of the call, and
    the next listing is the previous one followed by it.  In every other
    case the answer is a 500 carrying the error and nothing is written. *)
Theorem post_category_outcome (st : Store) (req_body : CategoryFields) (now : Time) :
  let (st', r) := post_api_category req_body now st in
  (status r = 201%N <->
   category_valid req_body = true /\ id_taken (c_id req_body) (categories st) = false)
  /\ (status r = 201%N ->
      exists d,
        body r = BCategory d
        /\ category_stored req_body (fields d)
        /\ createdAt d = now /\ updatedAt d = now
        /\ get_api_products st'
           = (st', mkResponse 200 (BCategories (categories st ++ [d]))))
  /\ (status r <> 201%N ->
      status r = 500%N /\ (exists e, body r = BError e) /\ st' = st).
Proof.
  unfold post_api_category, try_catch, bind, Category.create, category_valid.
  destruct (categorySchema_errors req_body) as [|p errs]; cbn [is_nil].
  - destruct (id_taken (c_id req_body) (categories st)); simpl.
    + split; [split; [discriminate | intros [_ H]; discriminate H]|].
      split; [discriminate|]. intros _. eauto.
    + split; [split; auto|].
      split; [|intros H; now contradiction H].
      intros _. eexists.
      split; [reflexivity|].
      split; [apply category_document_stored|].
      repeat split.
  - simpl.
    split; [split; [discriminate | intros [H _]; discriminate H]|].
    split; [discriminate|]. intros _. eauto.
Qed.

(** ** Deleting a category that exists *)

Lemma filter_all {A} (p : A -> bool) (l : list A) :
  (forall x, In x l -> p x = true) -> filter p l = l.
Proof.
  induction l as [|x t IH]; intros H; simpl; [reflexivity|].
  rewrite (H x (or_introl eq_refl)), IH; [reflexivity|].
  intros y Hy. apply H. now right.
Qed.

Lemma unique_key_elsewhere (pre post : list CategoryDoc) (d x : CategoryDoc) :
  NoDup (map key_of (pre ++ d :: post)) ->
  In x (pre ++ post) -> key_of x <> key_of d.
Proof.
  rewrite map_app. cbn [map]. intros Hnd Hin Heq.
  apply NoDup_remove_2 in Hnd. apply Hnd.
  rewrite <- map_app, <- Heq. now apply in_map.
Qed.

(** With unique keys, [DELETE /api/category/:id] answers 200 and leaves the
    collection without the documents of that key, the others in their order;
    promos and gallery are not touched, and a second call writes nothing. *)
Theorem delete_category_removes_key (st : Store) (key : string) :
  unique_ids st ->
  let (st', r) := delete_api_category key st in
  r = mkResponse 200 BSuccess
  /\ categories st' = filter (fun d => negb (has_id key d)) (categories st)
  /\ (forall d, In d (categories st') -> key_of d <> Some key)
  /\ promos st' = promos st /\ galleries st' = galleries st
  /\ delete_api_category key st' = (st', mkResponse 200 BSuccess).
Proof.
  unfold unique_ids. intros Huniq.
  assert (Hgone : forall l : list CategoryDoc,
             (forall x, In x l -> has_id key x = false) ->
             filter (fun d => negb (has_id key d)) l = l).
  { intros l H. apply filter_all. intros x Hx. now rewrite (H x Hx). }
  unfold delete_api_category, try_catch, bind, Category.findOneAndDelete.
  destruct (split_first (has_id key) (categories st)) as [[[pre d] post]|] eqn:Hsp.
  - destruct (split_first_some _ _ _ _ _ Hsp) as (Hcats & Hd & Hpre).
    rewrite Hcats in Huniq |- *.
    assert (Hrest : forall x, In x (pre ++ post) -> has_id key x = false).
    { intros x Hx. apply has_id_false.
      apply has_id_true in Hd. fold (key_of d) in Hd. fold (key_of x).
      rewrite <- Hd. now apply (unique_key_elsewhere pre post). }
    cbn [json ret fst snd categories promos galleries set_categories].
    split; [reflexivity|]. split.
    { rewrite filter_app. cbn [filter]. rewrite Hd. cbn [negb].
      rewrite <- filter_app. symmetry. now apply Hgone. }
    split.
    { intros x Hx. apply Hrest in Hx. unfold has_id in Hx.
      now apply opt_eqb_neq in Hx. }
    split; [reflexivity|]. split; [reflexivity|].
    cbn [categories]. rewrite (split_first_none _ _ Hrest). reflexivity.
  - pose proof (split_first_is_none _ _ Hsp) as Hnone.
    cbn [json ret fst snd].
    split; [reflexivity|]. split; [symmetry; now apply Hgone|].
    split.
    { intros x Hx. apply Hnone in Hx. unfold has_id in Hx.
      now apply opt_eqb_neq in Hx. }
    split; [reflexivity|]. split; [reflexivity|].
    rewrite Hsp. reflexivity.
Qed.

Lemma delete_category_removes_key_witness :
  let (st', r) := delete_api_category "bifold" two_categories in
  r = mkResponse 200 BSuccess
  /\ categories st' = filter (fun d => negb (has_id "bifold" d)) (categories two_categories)
  /\ (forall d, In d (categories st') -> key_of d <> Some "bifold")
  /\ promos st' = promos two_categories /\ galleries st' = galleries two_categories
  /\ delete_api_category "bifold" st' = (st', mkResponse 200 BSuccess).
Proof.
  apply (delete_category_removes_key two_categories "bifold").
  unfold unique_ids. simpl.
  constructor; [simpl; intros [H|[]]; discriminate H|].
  constructor; [intros [] | constructor].
Defined.

(** A category that was just created is removed again by deleting its key:
    the collection is back to what it was. *)
Theorem create_then_delete_restores
        (st : Store) (req_body : CategoryFields) (now : Time) (key : string) :
  c_id req_body = Some key ->
  status (snd (post_api_category req_body now st)) = 201%N ->
  categories (fst (delete_api_category key (fst (post_api_category req_body now st))))
  = categories st.
Proof.
  intros Hkey.
  unfold post_api_category, try_catch, bind, Category.create.
  destruct (categorySchema_errors req_body) as [|p errs]; [|discriminate].
  rewrite Hkey.
  destruct (id_taken (Some key) (categories st)) eqn:Htaken; [discriminate|].
  intros _. cbn [fst json status_json ret].
  unfold delete_api_category, try_catch, bind, Category.findOneAndDelete.
  cbn [categories take_oids bump_oid set_categories].
  simpl in Htaken. rewrite existsb_false_all in Htaken.
  rewrite (split_first_found (has_id key) (categories st) []); [|assumption|].
  - cbn [fst json ret categories set_categories]. apply app_nil_r.
  - unfold has_id. cbn [fields category_document products_default cast_category c_id].
    rewrite Hkey. apply opt_eqb_refl.
Qed.

Lemma create_then_delete_restores_witness :
  categories (fst (delete_api_category "casement"
                     (fst (post_api_category windows_category 3%N empty_store))))
  = categories empty_store.
Proof.
  apply (create_then_delete_restores empty_store windows_category 3%N "casement");
    reflexivity.
Defined.

(** ** What a request writes *)

Ltac step_matches :=
  repeat match goal with
         | |- context [match ?x with _ => _ end] =>
             lazymatch x with
             | context [match _ with _ => _ end] => fail
             | _ => destruct x
             end
         end.

Lemma create_frame (doc : CategoryFields) (now : Time) (st : Store) :
  promos (fst (Category.create doc now st)) = promos st
  /\ galleries (fst (Category.create doc now st)) = galleries st.
Proof. unfold Category.create. step_matches; split; reflexivity. Qed.

Lemma for_each_create_store (clock : nat -> Time) (c : CategoryFields)
      (t : list CategoryFields) (k : nat) (st : Store) :
  fst (for_each (create_each clock) k (c :: t) st) =
    match Category.create c (clock k) st with
    | (st1, Resolved _) => fst (for_each (create_each clock) (S k) t st1)
    | (st1, Rejected _) => st1
    end.
Proof.
  cbn [for_each]. unfold bind at 1. unfold create_each at 1. unfold bind at 1.
  destruct (Category.create c (clock k) st) as [st1 [d|e]]; reflexivity.
Qed.

Lemma for_each_create_frame (clock : nat -> Time) (l : list CategoryFields) :
  forall k st,
    promos (fst (for_each (create_each clock) k l st)) = promos st
    /\ galleries (fst (for_each (create_each clock) k l st)) = galleries st.
Proof.
  induction l as [|c t IH]; intros k st.
  - split; reflexivity.
  - rewrite for_each_create_store.
    destruct (create_frame c (clock k) st) as [Hp Hg].
    destruct (Category.create c (clock k) st) as [st1 [d|e]]; cbn [fst] in *.
    + destruct (IH (S k) st1) as [Hp' Hg'].
      rewrite Hp', Hg'. split; assumption.
    + split; assumption.
Qed.

Lemma products_sync_store (b : ProductsSyncBody) (clock : nat -> Time) (st : Store) :
  fst (post_api_products_sync b clock st) =
    match sync_categories b with
    | Some l => fst (for_each (create_each clock) 0 l (set_categories [] st))
    | None => set_categories [] st
    end.
Proof.
  unfold post_api_products_sync, try_catch.
  unfold bind at 1. unfold Category.deleteMany at 1.
  unfold bind at 1. unfold for_of.
  destruct (sync_categories b) as [l|]; [|reflexivity].
  change (fun (k : nat) (cat : CategoryFields) => Category.create cat (clock k);;; ret tt)
    with (create_each clock).
  destruct (for_each (create_each clock) 0 l (set_categories [] st)) as [st1 [[]|e]];
    reflexivity.
Qed.

Lemma serve_keeps_categories (cast : string -> option ObjectId) (r : Request) (st : Store) :
  collection_of r <> Categories ->
  categories (fst (serve cast r st)) = categories st.
Proof.
  destruct r; cbn [collection_of serve]; intros H; try (now contradiction H);
    unfold get_api_promo, put_api_promo, get_api_gallery, post_api_gallery,
      post_api_gallery_sync, delete_api_gallery, try_catch, bind,
      Promo.findOne, Promo.save, Promo.create, Gallery.find_sorted, Gallery.create,
      Gallery.deleteMany, Gallery.insertMany, Gallery.findByIdAndDelete, json,
      status_json, ret;
    step_matches; reflexivity.
Qed.

Lemma serve_keeps_galleries (cast : string -> option ObjectId) (r : Request) (st : Store) :
  collection_of r <> Galleries ->
  galleries (fst (serve cast r st)) = galleries st.
Proof.
  destruct r; cbn [collection_of serve]; intros H; try (now contradiction H);
    try (rewrite products_sync_store;
         destruct (sync_categories req_body) as [l|];
         [destruct (for_each_create_frame clock l 0 (set_categories [] st)) as [Hp Hg];
          first [exact Hp | exact Hg]
         | reflexivity]);
    unfold get_api_products, post_api_category, put_api_category, delete_api_category,
      get_api_promo, put_api_promo, try_catch, bind,
      Category.find, Category.create, Category.findOneAndUpdate,
      Category.findOneAndDelete,
      Promo.findOne, Promo.save, Promo.create, json, status_json, ret;
    step_matches; reflexivity.
Qed.

Lemma serve_keeps_promos (cast : string -> option ObjectId) (r : Request) (st : Store) :
  collection_of r <> Promos ->
  promos (fst (serve cast r st)) = promos st.
Proof.
  destruct r; cbn [collection_of serve]; intros H; try (now contradiction H);
    try (rewrite products_sync_store;
         destruct (sync_categories req_body) as [l|];
         [destruct (for_each_create_frame clock l 0 (set_categories [] st)) as [Hp Hg];
          first [exact Hp | exact Hg]
         | reflexivity]);
    unfold get_api_products, post_api_category, put_api_category, delete_api_category,
      get_api_gallery, post_api_gallery,
      post_api_gallery_sync, delete_api_gallery, try_catch, bind,
      Category.find, Category.create, Category.findOneAndUpdate,
      Category.findOneAndDelete, Gallery.find_sorted, Gallery.create,
      Gallery.deleteMany, Gallery.insertMany, Gallery.findByIdAndDelete, json,
      status_json, ret;
    step_matches; reflexivity.
Qed.

Lemma serve_read_only (cast : string -> option ObjectId) (r : Request) (st : Store) :
  is_read r = true -> fst (serve cast r st) = st.
Proof.
  destruct r; cbn [is_read serve]; intros H; try discriminate H;
    unfold get_api_products, get_api_promo, get_api_gallery, try_catch, bind,
      Category.find, Promo.findOne, Gallery.find_sorted, json, ret;
    step_matches; reflexivity.
Qed.

(** Every route writes to its own collection only, and the three [GET]
    routes write nothing at all. *)
Theorem routes_write_their_own_collection
        (cast : string -> option ObjectId) (r : Request) (st : Store) :
  (collection_of r <> Categories -> categories (fst (serve cast r st)) = categories st)
  /\ (collection_of r <> Promos -> promos (fst (serve cast r st)) = promos st)
  /\ (collection_of r <> Galleries -> galleries (fst (serve cast r st)) = galleries st)
  /\ (is_read r = true -> fst (serve cast r st) = st).
Proof.
  split; [apply serve_keeps_categories|].
  split; [apply serve_keeps_promos|].
  split; [apply serve_keeps_galleries | apply serve_read_only].
Qed.

(** ** The unique key of the categories *)

Lemma unique_insert (pre post : list CategoryDoc) (d : CategoryDoc) :
  NoDup (map key_of (pre ++ post)) ->
  ~ In (key_of d) (map key_of (pre ++ post)) ->
  NoDup (map key_of (pre ++ d :: post)).
Proof.
  intros Hnd Hnotin.
  eapply Permutation_NoDup; [apply Permutation_map, Permutation_middle|].
  cbn [map]. now constructor.
Qed.

Lemma create_unique (doc : CategoryFields) (now : Time) (st : Store) :
  unique_ids st -> unique_ids (fst (Category.create doc now st)).
Proof.
  unfold unique_ids, Category.create. intros Huniq.
  destruct (categorySchema_errors doc) as [|p errs] eqn:Herr; [|assumption].
  destruct (id_taken (c_id doc) (categories st)) eqn:Htaken; [assumption|].
  cbn [fst categories take_oids bump_oid set_categories].
  destruct (valid_category_has_id doc Herr) as (s & Hs).
  rewrite Hs in Htaken. apply id_taken_false_notin in Htaken.
  apply unique_insert; rewrite app_nil_r; [assumption|].
  unfold key_of at 1. cbn [fields category_document products_default cast_category c_id].
  now rewrite Hs.
Qed.

Lemma for_each_create_unique (clock : nat -> Time) (l : list CategoryFields) :
  forall k st,
    unique_ids st -> unique_ids (fst (for_each (create_each clock) k l st)).
Proof.
  induction l as [|c t IH]; intros k st Huniq; [assumption|].
  rewrite for_each_create_store.
  pose proof (create_unique c (clock k) st Huniq) as Hc.
  destruct (Category.create c (clock k) st) as [st1 [d|e]]; cbn [fst] in Hc.
  - now apply IH.
  - assumption.
Qed.

Lemma update_unique (key : string) (u : CategoryFields) (now : Time) (st : Store) :
  unique_ids st -> unique_ids (fst (Category.findOneAndUpdate key u now st)).
Proof.
  unfold unique_ids, Category.findOneAndUpdate. intros Huniq.
  destruct (categorySchema_update_errors u) as [|p errs]; [|assumption].
  destruct (split_first (has_id key) (categories st)) as [[[pre d] post]|] eqn:Hsp.
  - destruct (split_first_some _ _ _ _ _ Hsp) as (Hcats & Hd & _).
    apply has_id_true in Hd. cbv zeta.
    destruct (opt_eqb (c_id (set_category (next_oid st) u (fields d))) (c_id (fields d))) eqn:Hsame;
      cbn [negb andb].
    + apply opt_eqb_eq in Hsame.
      cbn [fst categories take_oids set_categories].
      rewrite Hcats in Huniq. rewrite map_app in Huniq |- *. cbn [map] in Huniq |- *.
      unfold key_of at 2. cbn [fields]. rewrite Hsame. exact Huniq.
    + destruct (id_taken (c_id (set_category (next_oid st) u (fields d))) (pre ++ post)) eqn:Htaken;
        [assumption|].
      cbn [fst categories take_oids set_categories].
      rewrite Hcats in Huniq.
      assert (Hv : exists v, c_id (set_category (next_oid st) u (fields d)) = Some v).
      { cbn [set_category c_id]. rewrite Hd. destruct (c_id u); cbn [over]; eauto. }
      destruct Hv as (v & Hv). rewrite Hv in Htaken.
      apply id_taken_false_notin in Htaken.
      apply unique_insert.
      * rewrite map_app in Huniq |- *. cbn [map] in Huniq.
        now apply NoDup_remove_1 in Huniq.
      * unfold key_of at 1. cbn [fields]. now rewrite Hv.
  - cbv zeta.
    set (f := products_default
                (set_category (N.succ (next_oid st)) u (mkCategory (Some key) None None None None None))).
    destruct (id_taken (c_id f) (categories st)) eqn:Htaken; [assumption|].
    cbn [fst categories take_oids bump_oid set_categories].
    assert (Hv : exists v, c_id f = Some v).
    { subst f. cbn [products_default set_category c_id].
      destruct (c_id u); cbn [over]; eauto. }
    destruct Hv as (v & Hv). rewrite Hv in Htaken.
    apply id_taken_false_notin in Htaken.
    apply unique_insert; rewrite app_nil_r; [assumption|].
    unfold key_of at 1. cbn [fields]. now rewrite Hv.
Qed.

Lemma delete_unique (key : string) (st : Store) :
  unique_ids st -> unique_ids (fst (Category.findOneAndDelete key st)).
Proof.
  unfold unique_ids, Category.findOneAndDelete. intros Huniq.
  destruct (split_first (has_id key) (categories st)) as [[[pre d] post]|] eqn:Hsp;
    [|assumption].
  destruct (split_first_some _ _ _ _ _ Hsp) as (Hcats & _ & _).
  cbn [fst categories take_oids set_categories].
  rewrite Hcats, map_app in Huniq. cbn [map] in Huniq.
  rewrite map_app. now apply NoDup_remove_1 in Huniq.
Qed.

Lemma post_api_category_store (b : CategoryFields) (now : Time) (st : Store) :
  fst (post_api_category b now st) = fst (Category.create b now st).
Proof.
  unfold post_api_category, try_catch, bind.
  destruct (Category.create b now st) as [st' [d|e]]; reflexivity.
Qed.

Lemma delete_api_category_store (key : string) (st : Store) :
  fst (delete_api_category key st) = fst (Category.findOneAndDelete key st).
Proof.
  unfold delete_api_category, try_catch, bind.
  destruct (Category.findOneAndDelete key st) as [st' [d|e]]; reflexivity.
Qed.

Lemma serve_unique (cast : string -> option ObjectId) (r : Request) (st : Store) :
  unique_ids st -> unique_ids (fst (serve cast r st)).
Proof.
  intros Huniq.
  destruct r;
    try (unfold unique_ids; rewrite serve_keeps_categories;
         [exact Huniq | discriminate]);
    cbn [serve].
  - exact Huniq.
  - rewrite post_api_category_store. now apply create_unique.
  - rewrite products_sync_store.
    destruct (sync_categories req_body) as [l|].
    + apply for_each_create_unique. constructor.
    + constructor.
  - rewrite put_api_category_store. now apply update_unique.
  - rewrite delete_api_category_store. now apply delete_unique.
Qed.

(** No sequence of requests makes two category documents carry the same
    [id]: whatever the requests and their bodies, a collection with unique
    keys still has unique keys afterwards. *)
Theorem unique_ids_invariant
        (cast : string -> option ObjectId) (rs : list Request) (st : Store) :
  unique_ids st -> unique_ids (serve_all cast rs st).
Proof.
  revert st; induction rs as [|r t IH]; intros st Huniq; cbn [serve_all].
  - assumption.
  - apply IH. now apply serve_unique.
Qed.

Lemma unique_ids_invariant_witness :
  unique_ids
    (serve_all castObjectId
       [POST_category windows_category 1%N;
        POST_category windows_category 2%N;
        PUT_category "bifold" doors_category 3%N;
        PUT_category "bifold" windows_category 4%N;
        DELETE_category "casement"]
       empty_store).
Proof.
  apply (unique_ids_invariant castObjectId _ empty_store). constructor.
Defined.

(** ** Failed requests *)

Lemma products_sync_result (b : ProductsSyncBody) (clock : nat -> Time) (st : Store) :
  post_api_products_sync b clock st =
    match sync_categories b with
    | Some l =>
        match for_each (create_each clock) 0 l (set_categories [] st) with
        | (st1, Resolved _) =>
            (st1, mkResponse 200
                    (BMessage ("Synced " ++ decimal (length l) ++ " categories")%string))
        | (st1, Rejected e) => (st1, mkResponse 500 (BError e))
        end
    | None =>
        (set_categories [] st,
         mkResponse 500 (BError (TypeError "undefined is not iterable")))
    end.
Proof.
  unfold post_api_products_sync, try_catch.
  unfold bind at 1. unfold Category.deleteMany at 1.
  unfold bind at 1. unfold for_of.
  destruct (sync_categories b) as [l|]; [|reflexivity].
  change (fun (k : nat) (cat : CategoryFields) => Category.create cat (clock k);;; ret tt)
    with (create_each clock).
  destruct (for_each (create_each clock) 0 l (set_categories [] st)) as [st1 [[]|e]];
    reflexivity.
Qed.

Lemma products_sync_response (b : ProductsSyncBody) (clock : nat -> Time) (st : Store) :
  (exists m, snd (post_api_products_sync b clock st) = mkResponse 200 (BMessage m))
  \/ (exists e, snd (post_api_products_sync b clock st) = mkResponse 500 (BError e)).
Proof.
  rewrite products_sync_result.
  destruct (sync_categories b) as [l|]; [|right; eexists; reflexivity].
  destruct (for_each (create_each clock) 0 l (set_categories [] st)) as [st1 [[]|e]].
  - left. eexists. reflexivity.
  - right. eexists. reflexivity.
Qed.

(** A response has status 500 exactly when it carries an error, and a failed
    request has written nothing, unless it is one of the two syncs (which
    empty their collection first). *)
Theorem failed_request_writes_nothing
        (cast : string -> option ObjectId) (r : Request) (st : Store) :
  (status (snd (serve cast r st)) = 500%N <->
   exists e, body (snd (serve cast r st)) = BError e)
  /\ (is_sync r = false ->
      status (snd (serve cast r st)) = 500%N ->
      fst (serve cast r st) = st).
Proof.
  destruct r; cbn [serve is_sync];
    try (destruct (products_sync_response req_body clock st) as [(m & ->) | (e & ->)];
         cbn [status body snd];
         (split; [split; [try discriminate; eauto | intros (e' & He');
                          first [discriminate He' | reflexivity]]
                 | discriminate]));
    unfold get_api_products, post_api_category, put_api_category, delete_api_category,
      get_api_promo, put_api_promo, get_api_gallery, post_api_gallery,
      post_api_gallery_sync, delete_api_gallery, try_catch, bind,
      Category.find, Category.create, Category.findOneAndUpdate,
      Category.findOneAndDelete, Promo.findOne, Promo.save, Promo.create,
      Gallery.find_sorted, Gallery.create, Gallery.deleteMany, Gallery.insertMany,
      Gallery.findByIdAndDelete, json, status_json, ret;
    step_matches; cbn [fst snd status body];
    (split; [split; [try discriminate; eauto | intros (e' & He');
                     first [discriminate He' | reflexivity]]
            | intros; first [discriminate | reflexivity]]).
Qed.

(** ** The promo as a singleton *)

Lemma put_promo_result (b : PromoFields) (now : Time) (st : Store) :
  put_api_promo b now st =
    match promos st with
    | [] =>
        let d := mkDoc (next_oid st) b now now in
        (bump_oid (set_promos [d] st), mkResponse 200 (BPromoDoc d))
    | p :: rest =>
        if promo_eqb (assign_promo b (fields p)) (fields p)
        then (st, mkResponse 200 (BPromoDoc p))
        else
          let d := mkDoc (_id p) (assign_promo b (fields p)) (createdAt p) now in
          (set_promos (d :: rest) st, mkResponse 200 (BPromoDoc d))
    end.
Proof.
  destruct st as [cs ps gs n].
  unfold put_api_promo, try_catch, bind, Promo.findOne, Promo.save, Promo.create.
  destruct ps as [|p rest]; cbn [promos hd_error]; [reflexivity|].
  destruct (promo_eqb (assign_promo b (fields p)) (fields p)); [reflexivity|].
  cbn [promos set_promos Promo.replace_by_id _id json ret]. rewrite N.eqb_refl.
  reflexivity.
Qed.

Lemma over_same {A} (x : option A) : over x x = x.
Proof. destruct x; reflexivity. Qed.

Lemma assign_promo_idem (u old : PromoFields) :
  assign_promo u (assign_promo u old) = assign_promo u old.
Proof. unfold assign_promo; cbn. now rewrite !over_idem. Qed.

Lemma assign_promo_same (u : PromoFields) : assign_promo u u = u.
Proof. destruct u; unfold assign_promo; cbn. now rewrite !over_same. Qed.

Lemma promo_eqb_refl (a : PromoFields) : promo_eqb a a = true.
Proof. now apply promo_eqb_eq. Qed.

Lemma serve_promo_length (cast : string -> option ObjectId) (r : Request) (st : Store) :
  length (promos (fst (serve cast r st))) =
    match r with
    | PUT_promo _ _ => Nat.max 1 (length (promos st))
    | _ => length (promos st)
    end.
Proof.
  destruct r;
    try (rewrite serve_keeps_promos by discriminate; reflexivity).
  - now rewrite (serve_read_only cast GET_promo st eq_refl).
  - cbn [serve]. rewrite put_promo_result.
    destruct (promos st) as [|p rest] eqn:Hp; [reflexivity|].
    destruct (promo_eqb (assign_promo req_body (fields p)) (fields p));
      cbn [fst promos set_promos]; rewrite ?Hp; reflexivity.
Qed.

Lemma serve_all_promo_length (cast : string -> option ObjectId) (rs : list Request) :
  forall st,
    ((length (promos st) <= 1)%nat -> (length (promos (serve_all cast rs st)) <= 1)%nat)
    /\ (length (promos st) = 1%nat -> length (promos (serve_all cast rs st)) = 1%nat).
Proof.
  induction rs as [|r t IH]; intros st; cbn [serve_all]; [split; auto|].
  pose proof (serve_promo_length cast r st) as Hlen.
  destruct (IH (fst (serve cast r st))) as [IHle IHeq].
  split; intros H; [apply IHle | apply IHeq]; rewrite Hlen; destruct r; lia.
Qed.

(** The application never makes a second promo document: served one at a
    time, no sequence of requests takes a promo collection of at most one
    document past one document, and once a [PUT /api/promo] was served there
    is exactly one. *)
Theorem promo_stays_single
        (cast : string -> option ObjectId) (rs : list Request) (st : Store) :
  (length (promos st) <= 1)%nat ->
  (length (promos (serve_all cast rs st)) <= 1)%nat
  /\ ((exists b now, In (PUT_promo b now) rs) ->
      length (promos (serve_all cast rs st)) = 1%nat).
Proof.
  intros Hle. split; [now apply serve_all_promo_length|].
  intros (b & now & Hin). revert st Hle.
  induction rs as [|r t IH]; intros st Hle; [destruct Hin|].
  cbn [serve_all].
  pose proof (serve_promo_length cast r st) as Hlen.
  destruct Hin as [-> | Hin].
  - apply serve_all_promo_length. rewrite Hlen. lia.
  - apply (IH Hin). rewrite Hlen. destruct r; lia.
Qed.

Lemma promo_stays_single_witness :
  (length (promos (serve_all castObjectId
                     [PUT_promo title_only 1%N; GET_promo; PUT_promo default_promo 2%N]
                     empty_store)) <= 1)%nat
  /\ ((exists b now, In (PUT_promo b now)
                        [PUT_promo title_only 1%N; GET_promo; PUT_promo default_promo 2%N]) ->
      length (promos (serve_all castObjectId
                        [PUT_promo title_only 1%N; GET_promo; PUT_promo default_promo 2%N]
                        empty_store)) = 1%nat).
Proof.
  apply (promo_stays_single castObjectId _ empty_store). simpl. lia.
Defined.

Lemma carries_assign {A} (get : PromoFields -> option A) (u f : PromoFields) :
  get f = over (get u) (get f) -> carries get u f.
Proof. unfold carries. intros H. destruct (get u); [exact H | exact I]. Qed.

(** [PUT /api/promo] with a body of strings always answers 200 with a promo
    document, the one the next [GET /api/promo] answers with, and on each of
    the six paths that the body names that document has the body's value. *)
Theorem put_promo_then_get (st : Store) (req_body : PromoFields) (now : Time) :
  exists d,
    snd (put_api_promo req_body now st) = mkResponse 200 (BPromoDoc d)
    /\ snd (get_api_promo (fst (put_api_promo req_body now st)))
       = mkResponse 200 (BPromoDoc d)
    /\ carries pr_tagText req_body (fields d)
    /\ carries pr_title req_body (fields d)
    /\ carries pr_description req_body (fields d)
    /\ carries pr_highlightText req_body (fields d)
    /\ carries pr_buttonText req_body (fields d)
    /\ carries pr_buttonLink req_body (fields d).
Proof.
  assert (Hcarries : forall f : PromoFields,
             assign_promo req_body f = f ->
             carries pr_tagText req_body f /\ carries pr_title req_body f
             /\ carries pr_description req_body f /\ carries pr_highlightText req_body f
             /\ carries pr_buttonText req_body f /\ carries pr_buttonLink req_body f).
  { intros f Hf.
    repeat split; apply carries_assign; rewrite <- Hf at 1; reflexivity. }
  rewrite put_promo_result.
  unfold get_api_promo, try_catch, bind, Promo.findOne.
  destruct (promos st) as [|p rest] eqn:Hp; cbv zeta.
  - eexists. cbn [fst snd promos bump_oid set_promos hd_error json ret].
    split; [reflexivity|]. split; [reflexivity|].
    apply Hcarries, assign_promo_same.
  - destruct (promo_eqb (assign_promo req_body (fields p)) (fields p)) eqn:Heq.
    + exists p. cbn [fst snd]. rewrite Hp. cbn [hd_error json ret snd].
      split; [reflexivity|]. split; [reflexivity|].
      apply Hcarries. now apply promo_eqb_eq.
    + eexists. cbn [fst snd promos set_promos hd_error json ret].
      split; [reflexivity|]. split; [reflexivity|].
      apply Hcarries, assign_promo_idem.
Qed.

(** [PUT /api/promo] is idempotent, also in what it writes: a second call
    with the same body, at any later time, finds nothing to save; it leaves
    the store of the first call, [updatedAt] included, and gives the same
    answer. *)
Theorem put_promo_twice (st : Store) (req_body : PromoFields) (t1 t2 : Time) :
  put_api_promo req_body t2 (fst (put_api_promo req_body t1 st))
  = put_api_promo req_body t1 st.
Proof.
  rewrite (put_promo_result req_body t1 st).
  destruct (promos st) as [|p rest] eqn:Hp; cbv zeta.
  - rewrite put_promo_result.
    cbn [fst promos bump_oid set_promos fields].
    rewrite assign_promo_same, promo_eqb_refl. reflexivity.
  - destruct (promo_eqb (assign_promo req_body (fields p)) (fields p)) eqn:Heq.
    + rewrite put_promo_result. cbn [fst]. rewrite Hp, Heq. reflexivity.
    + rewrite put_promo_result.
      cbn [fst promos set_promos fields].
      rewrite assign_promo_idem, promo_eqb_refl. reflexivity.
Qed.

(** ** The gallery *)

Lemma gallery_valid_defaults (g : GalleryFields) :
  gallery_valid (gallery_defaults g) = gallery_valid g.
Proof. reflexivity. Qed.

Lemma gallery_defaults_complete (oid : ObjectId) (g : GalleryFields) (t1 t2 : Time) :
  gallery_valid g = true ->
  gallery_complete (mkDoc oid (gallery_defaults g) t1 t2) = true.
Proof.
  intros Hg. unfold gallery_complete. cbn [fields].
  rewrite gallery_valid_defaults, Hg.
  destruct g as [u t l c]; destruct c; reflexivity.
Qed.

Lemma first_invalid_forallb (l : list GalleryFields) :
  is_nil (Gallery.first_invalid l) = forallb gallery_valid l.
Proof.
  induction l as [|g t IH]; cbn [Gallery.first_invalid forallb]; [reflexivity|].
  unfold gallery_valid at 1.
  destruct (gallerySchema_errors g); cbn [is_nil andb]; [exact IH | reflexivity].
Qed.

Lemma stamp_all_complete (clock : nat -> Time) (l : list GalleryFields) :
  forall oid k,
    forallb gallery_valid l = true ->
    Forall (fun d => gallery_complete d = true) (Gallery.stamp_all oid k clock l).
Proof.
  induction l as [|g t IH]; intros oid k Hall; cbn [Gallery.stamp_all]; [constructor|].
  cbn [forallb] in Hall. apply andb_true_iff in Hall as [Hg Ht].
  constructor; [now apply gallery_defaults_complete | now apply IH].
Qed.

Lemma stamp_all_createdAt (oid : ObjectId) (clock : nat -> Time) (l : list GalleryFields) :
  forall k, map (@createdAt _) (Gallery.stamp_all oid k clock l)
            = map clock (seq k (length l)).
Proof.
  revert oid; induction l as [|g t IH]; intros oid k; simpl; [reflexivity|].
  now rewrite IH.
Qed.

Lemma post_gallery_result (b : GalleryFields) (now : Time) (st : Store) :
  post_api_gallery b now st =
    match gallerySchema_errors b with
    | [] =>
        let d := mkDoc (next_oid st) (gallery_defaults b) now now in
        (bump_oid (set_galleries (galleries st ++ [d]) st),
         mkResponse 201 (BGalleryItem d))
    | errs => (st, mkResponse 500 (BError (ValidationError errs)))
    end.
Proof.
  unfold post_api_gallery, try_catch, bind, Gallery.create.
  destruct (gallerySchema_errors b); reflexivity.
Qed.

Lemma gallery_sync_result (items : list GalleryFields) (clock : nat -> Time) (st : Store) :
  post_api_gallery_sync (mkGallerySync (Some items)) clock st =
    match Gallery.first_invalid items with
    | [] =>
        (mkStore (categories st) (promos st)
                 (Gallery.stamp_all (next_oid st) 0 clock items)
                 (next_oid st + N.of_nat (length items))%N,
         mkResponse 200 (BCount (length items)))
    | errs => (set_galleries [] st, mkResponse 500 (BError (ValidationError errs)))
    end.
Proof.
  unfold post_api_gallery_sync, try_catch, bind, Gallery.deleteMany, Gallery.insertMany.
  cbn [sync_items]. cbv zeta.
  destruct (Gallery.first_invalid items); [|reflexivity].
  cbn [galleries set_galleries app categories promos next_oid json ret].
  now rewrite stamp_all_length.
Qed.

(** [POST /api/gallery] answers 201 exactly when [url], [title] and
    [location] are present and not empty; the created item holds them, its
    [category] is the body's, or ["General"] when the body has none, and the
    next [GET /api/gallery] lists it with the items that were there.
    Otherwise the answer is a 500 carrying the error and nothing is
    written. *)
Theorem post_gallery_outcome (st : Store) (req_body : GalleryFields) (now : Time) :
  let (st', r) := post_api_gallery req_body now st in
  (status r = 201%N <-> gallery_valid req_body = true)
  /\ (status r = 201%N ->
      exists d,
        body r = BGalleryItem d
        /\ g_url (fields d) = g_url req_body
        /\ g_title (fields d) = g_title req_body
        /\ g_location (fields d) = g_location req_body
        /\ g_category (fields d)
           = Some (match g_category req_body with Some c => c | None => "General" end)
        /\ createdAt d = now
        /\ Permutation (d :: galleries st) (listed_gallery st'))
  /\ (status r <> 201%N ->
      status r = 500%N /\ (exists e, body r = BError e) /\ st' = st).
Proof.
  rewrite post_gallery_result. unfold gallery_valid.
  destruct (gallerySchema_errors req_body) as [|p errs]; cbv zeta; cbn [is_nil status body].
  - split; [split; auto|].
    split; [|intros H; now contradiction H].
    intros _. eexists. split; [reflexivity|].
    cbn [fields gallery_defaults g_url g_title g_location g_category createdAt].
    do 3 (split; [reflexivity|]).
    split; [destruct (g_category req_body); reflexivity|].
    split; [reflexivity|].
    unfold listed_gallery, get_api_gallery, try_catch, bind, Gallery.find_sorted.
    cbn [json ret snd body galleries bump_oid set_galleries].
    eapply perm_trans; [apply Permutation_cons_append | apply sort_desc_perm].
  - split; [split; discriminate|].
    split; [discriminate|]. intros _. eauto.
Qed.

(** [POST /api/gallery/sync] with an array inserts all of its items or none:
    when every item is valid the gallery becomes the items, in order, each
    stamped with its own reading of the clock, and the answer counts them;
    when one item is invalid the answer is a 500 and the gallery is left
    empty, the valid items before it included. *)
Theorem gallery_sync_all_or_nothing
        (st : Store) (clock : nat -> Time) (items : list GalleryFields) :
  let (st', r) := post_api_gallery_sync (mkGallerySync (Some items)) clock st in
  (forallb gallery_valid items = true
   /\ r = mkResponse 200 (BCount (length items))
   /\ map (@fields _) (galleries st') = map gallery_defaults items
   /\ map (@createdAt _) (galleries st') = map clock (seq 0 (length items)))
  \/ (forallb gallery_valid items = false
      /\ status r = 500%N /\ (exists e, body r = BError e)
      /\ galleries st' = []).
Proof.
  rewrite gallery_sync_result.
  pose proof (first_invalid_forallb items) as Hall.
  destruct (Gallery.first_invalid items) as [|p errs]; cbn [is_nil] in Hall.
  - left. cbn [galleries]. split; [now symmetry|]. split; [reflexivity|].
    split; [apply stamp_all_fields | apply stamp_all_createdAt].
  - right. cbn [status body galleries set_galleries].
    split; [now symmetry|]. split; [reflexivity|]. split; [eauto | reflexivity].
Qed.

Lemma sublist_complete (pre post : list GalleryDoc) (d : GalleryDoc) :
  Forall (fun x => gallery_complete x = true) (pre ++ d :: post) ->
  Forall (fun x => gallery_complete x = true) (pre ++ post).
Proof.
  rewrite !Forall_app. intros [Hpre Hpost].
  inversion_clear Hpost. now split.
Qed.

Lemma serve_complete (cast : string -> option ObjectId) (r : Request) (st : Store) :
  galleries_complete st -> galleries_complete (fst (serve cast r st)).
Proof.
  unfold galleries_complete. intros Hc.
  destruct r;
    try (rewrite serve_keeps_galleries by discriminate; exact Hc).
  - now rewrite (serve_read_only cast GET_gallery st eq_refl).
  - cbn [serve]. rewrite post_gallery_result.
    destruct (gallerySchema_errors req_body) as [|p errs] eqn:Herr; [|exact Hc].
    cbv zeta. cbn [fst galleries bump_oid set_galleries].
    apply Forall_app. split; [exact Hc|].
    constructor; [|constructor].
    apply gallery_defaults_complete. unfold gallery_valid. now rewrite Herr.
  - cbn [serve]. destruct req_body as [[items|]].
    + rewrite gallery_sync_result.
      pose proof (first_invalid_forallb items) as Hall.
      destruct (Gallery.first_invalid items) as [|p errs]; cbn [is_nil] in Hall.
      * cbn [fst galleries]. apply stamp_all_complete. now symmetry.
      * constructor.
    + constructor.
  - cbn [serve].
    unfold delete_api_gallery, try_catch, bind, Gallery.findByIdAndDelete.
    destruct (cast id) as [oid|]; [|exact Hc].
    case_split_first; [|exact Hc].
    match goal with
    | H : split_first _ _ = Some _ |- _ =>
        destruct (split_first_some _ _ _ _ _ H) as (Hg & _ & _)
    end.
    cbn [fst json ret galleries set_galleries].
    rewrite Hg in Hc. now apply sublist_complete in Hc.
Qed.

(** Unlike the categories, the gallery never holds an incomplete document:
    whatever the requests, if every stored item had its [url], [title],
    [location] (not empty) and a [category], every stored item still has
    them. *)
Theorem galleries_complete_invariant
        (cast : string -> option ObjectId) (rs : list Request) (st : Store) :
  galleries_complete st -> galleries_complete (serve_all cast rs st).
Proof.
  revert st; induction rs as [|r t IH]; intros st Hc; cbn [serve_all].
  - assumption.
  - apply IH. now apply serve_complete.
Qed.

Lemma galleries_complete_invariant_witness :
  galleries_complete
    (serve_all castObjectId
       [POST_gallery (mkGallery (Some "/img/a.jpg") (Some "Bay window") None None) 1%N;
        POST_gallery_sync (mkGallerySync (Some two_items)) N.of_nat;
        POST_gallery_sync (mkGallerySync None) N.of_nat;
        POST_gallery (mkGallery (Some "/img/c.jpg") (Some "Porch") (Some "Hull") None) 9%N]
       empty_store).
Proof.
  apply (galleries_complete_invariant castObjectId _ empty_store). constructor.
Defined.

Lemma unique_oid_elsewhere (pre post : list GalleryDoc) (d x : GalleryDoc) :
  NoDup (map (@_id GalleryFields) (pre ++ d :: post)) ->
  In x (pre ++ post) -> _id x <> _id d.
Proof.
  rewrite map_app. cbn [map]. intros Hnd Hin Heq.
  apply NoDup_remove_2 in Hnd. apply Hnd.
  rewrite <- map_app, <- Heq. now apply in_map.
Qed.

(** With unique identifiers, [DELETE /api/gallery/:id] of a well-formed
    identifier leaves the gallery without the item of that identifier and
    with every other item: the next listing holds exactly the items that
    were stored under another identifier. *)
Theorem delete_gallery_removes_item
        (cast : string -> option ObjectId) (st : Store) (id : string) (oid : ObjectId) :
  cast id = Some oid ->
  unique_gallery_oids st ->
  let (st', r) := delete_api_gallery cast id st in
  r = mkResponse 200 BSuccess
  /\ galleries st' = filter (fun d => negb (N.eqb (_id d) oid)) (galleries st)
  /\ (forall d, In d (listed_gallery st') <-> In d (galleries st) /\ _id d <> oid).
Proof.
  unfold unique_gallery_oids. intros Hcast Huniq.
  assert (Hlisted : forall s : Store,
             galleries s = filter (fun d => negb (N.eqb (_id d) oid)) (galleries st) ->
             forall d, In d (listed_gallery s) <-> In d (galleries st) /\ _id d <> oid).
  { intros s Hs d.
    unfold listed_gallery, get_api_gallery, try_catch, bind, Gallery.find_sorted.
    cbn [json ret snd body].
    assert (Hin : In d (Gallery.sort_desc (galleries s)) <-> In d (galleries s)).
    { split; apply Permutation_in;
        [apply Permutation_sym, sort_desc_perm | apply sort_desc_perm]. }
    rewrite Hin, Hs, filter_In, negb_true_iff, N.eqb_neq. tauto. }
  unfold delete_api_gallery, try_catch, bind, Gallery.findByIdAndDelete.
  rewrite Hcast.
  destruct (split_first (fun d => N.eqb (_id d) oid) (galleries st))
    as [[[pre d] post]|] eqn:Hsp.
  - destruct (split_first_some _ _ _ _ _ Hsp) as (Hg & Hd & _).
    apply N.eqb_eq in Hd.
    assert (Hfilter : pre ++ post
                      = filter (fun x => negb (N.eqb (_id x) oid)) (galleries st)).
    { rewrite Hg in Huniq |- *.
      rewrite filter_app. cbn [filter]. rewrite Hd, N.eqb_refl. cbn [negb].
      rewrite <- filter_app. symmetry. apply filter_all.
      intros x Hx. apply negb_true_iff, N.eqb_neq. rewrite <- Hd.
      now apply (unique_oid_elsewhere pre post). }
    cbn [json ret].
    split; [reflexivity|]. split; [exact Hfilter|].
    apply Hlisted. exact Hfilter.
  - pose proof (split_first_is_none _ _ Hsp) as Hnone.
    assert (Hfilter : galleries st
                      = filter (fun x => negb (N.eqb (_id x) oid)) (galleries st)).
    { symmetry. apply filter_all. intros x Hx. now rewrite (Hnone x Hx). }
    cbn [json ret].
    split; [reflexivity|]. split; [exact Hfilter|].
    apply Hlisted. exact Hfilter.
Qed.

Lemma delete_gallery_removes_item_witness :
  let (st', r) := delete_api_gallery castObjectId "000000000000000000000001" two_pictures in
  r = mkResponse 200 BSuccess
  /\ galleries st' = filter (fun d => negb (N.eqb (_id d) 1%N)) (galleries two_pictures)
  /\ (forall d, In d (listed_gallery st') <-> In d (galleries two_pictures) /\ _id d <> 1%N).
Proof.
  apply (delete_gallery_removes_item castObjectId two_pictures
           "000000000000000000000001" 1%N).
  - reflexivity.
  - unfold unique_gallery_oids. simpl.
    constructor; [simpl; intros [H|[]]; discriminate H|].
    constructor; [intros [] | constructor].
Defined.

(** ** Validity of the stored categories *)

Lemma category_document_errors (oid : ObjectId) (c : CategoryFields) :
  categorySchema_errors (category_document oid c) = categorySchema_errors c.
Proof.
  unfold categorySchema_errors.
  cbn [category_document products_default cast_category c_id c_type c_title c_products].
  do 3 f_equal.
  destruct (c_products c) as [l|]; cbn [cast_products default opt_products_errors];
    [apply products_errors_cast | reflexivity].
Qed.

Lemma create_valid (doc : CategoryFields) (now : Time) (st : Store) :
  categories_valid st -> categories_valid (fst (Category.create doc now st)).
Proof.
  unfold categories_valid, Category.create. intros Hv.
  destruct (categorySchema_errors doc) as [|p errs] eqn:Herr; [|assumption].
  destruct (id_taken (c_id doc) (categories st)); [assumption|].
  cbn [fst categories take_oids bump_oid set_categories].
  apply Forall_app. split; [assumption|].
  constructor; [|constructor].
  cbn [fields]. apply category_valid_errors. now rewrite category_document_errors.
Qed.

Lemma for_each_create_valid (clock : nat -> Time) (l : list CategoryFields) :
  forall k st,
    categories_valid st -> categories_valid (fst (for_each (create_each clock) k l st)).
Proof.
  induction l as [|c t IH]; intros k st Hv; [assumption|].
  rewrite for_each_create_store.
  pose proof (create_valid c (clock k) st Hv) as Hc.
  destruct (Category.create c (clock k) st) as [st1 [d|e]]; cbn [fst] in Hc.
  - now apply IH.
  - assumption.
Qed.

Lemma update_existing_valid (key : string) (u : CategoryFields) (now : Time) (st : Store) :
  (exists d, In d (categories st) /\ key_of d = Some key) ->
  categories_valid st ->
  categories_valid (fst (Category.findOneAndUpdate key u now st)).
Proof.
  unfold categories_valid, Category.findOneAndUpdate. intros (x & Hx & Hkey) Hv.
  destruct (categorySchema_update_errors u) as [|p errs] eqn:Hu; [|assumption].
  destruct (split_first (has_id key) (categories st)) as [[[pre d] post]|] eqn:Hsp.
  - destruct (split_first_some _ _ _ _ _ Hsp) as (Hcats & _ & _). cbv zeta.
    match goal with |- context [if ?c then _ else _] => destruct c end; [assumption|].
    cbn [fst categories take_oids set_categories].
    rewrite Hcats in Hv. apply Forall_app in Hv as [Hpre Hpost].
    inversion_clear Hpost as [|? ? Hd Hpost'].
    apply Forall_app. split; [assumption|].
    constructor; [|assumption].
    cbn [fields]. apply category_valid_errors.
    apply update_keeps_valid; [assumption | now apply category_valid_errors].
  - pose proof (split_first_is_none _ _ Hsp x Hx) as Hno.
    apply has_id_true in Hkey. congruence.
Qed.

Lemma delete_valid (key : string) (st : Store) :
  categories_valid st -> categories_valid (fst (Category.findOneAndDelete key st)).
Proof.
  unfold categories_valid, Category.findOneAndDelete. intros Hv.
  destruct (split_first (has_id key) (categories st)) as [[[pre d] post]|] eqn:Hsp;
    [|assumption].
  destruct (split_first_some _ _ _ _ _ Hsp) as (Hcats & _ & _).
  cbn [fst categories take_oids set_categories].
  rewrite Hcats in Hv. apply Forall_app in Hv as [Hpre Hpost].
  inversion_clear Hpost. apply Forall_app. now split.
Qed.

(** The one way an invalid category gets stored is a [PUT /api/category/:id]
    on a key that is not in the collection: every other request, a [PUT] on
    an existing key included, leaves a collection of valid documents
    valid. *)
Theorem categories_valid_unless_upsert_inserts
        (cast : string -> option ObjectId) (r : Request) (st : Store) :
  categories_valid st ->
  (forall id b now, r = PUT_category id b now ->
                    exists d, In d (categories st) /\ key_of d = Some id) ->
  categories_valid (fst (serve cast r st)).
Proof.
  intros Hv Hput.
  destruct r;
    try (unfold categories_valid; rewrite serve_keeps_categories;
         [exact Hv | discriminate]);
    cbn [serve].
  - exact Hv.
  - rewrite post_api_category_store. now apply create_valid.
  - rewrite products_sync_store.
    destruct (sync_categories req_body) as [l|].
    + apply for_each_create_valid. constructor.
    + constructor.
  - rewrite put_api_category_store.
    apply update_existing_valid; [|assumption].
    now apply (Hput id req_body now).
  - rewrite delete_api_category_store. now apply delete_valid.
Qed.

Lemma categories_valid_unless_upsert_inserts_witness :
  categories_valid
    (fst (serve castObjectId (PUT_category "bifold" description_only 20%N) two_categories)).
Proof.
  apply (categories_valid_unless_upsert_inserts castObjectId _ two_categories).
  - repeat constructor.
  - intros id b now [= <- <- <-].
    eexists. split; [right; left; reflexivity | reflexivity].
Defined.

(** ** The key of an upserted category *)

(** When [PUT /api/category/:id] succeeds, its answer is a document of the
    collection, stamped with the time of the call; its [id] is the body's
    when the body names one and the route's otherwise; and every document
    that was stored is still stored, under the same [_id]. *)
Theorem put_category_answers_stored_document
        (st : Store) (id : string) (req_body : CategoryFields) (now : Time) :
  status (snd (put_api_category id req_body now st)) = 200%N ->
  exists d,
    body (snd (put_api_category id req_body now st)) = BCategory d
    /\ In d (categories (fst (put_api_category id req_body now st)))
    /\ key_of d = over (c_id req_body) (Some id)
    /\ updatedAt d = now
    /\ (forall x, In x (categories st) ->
        exists x', In x' (categories (fst (put_api_category id req_body now st)))
                   /\ _id x' = _id x).
Proof.
  rewrite put_category_result. unfold Category.findOneAndUpdate.
  destruct (categorySchema_update_errors req_body) as [|p errs]; [|discriminate].
  destruct (split_first (has_id id) (categories st)) as [[[pre d] post]|] eqn:Hsp; cbv zeta.
  - destruct (split_first_some _ _ _ _ _ Hsp) as (Hcats & Hd & _).
    apply has_id_true in Hd.
    match goal with |- context [if ?c then _ else _] => destruct c end; [discriminate|].
    intros _. eexists. cbn [fst snd body categories take_oids set_categories].
    split; [reflexivity|].
    split; [apply in_or_app; right; now left|].
    split; [unfold key_of; cbn [fields set_category c_id]; now rewrite Hd|].
    split; [reflexivity|].
    intros x Hx. rewrite Hcats in Hx.
    apply in_app_or in Hx as [Hx | [<- | Hx]].
    + exists x. split; [apply in_or_app; now left | reflexivity].
    + eexists. split; [apply in_or_app; right; now left | reflexivity].
    + exists x. split; [apply in_or_app; right; now right | reflexivity].
  - match goal with |- context [if ?c then _ else _] => destruct c end; [discriminate|].
    intros _. eexists. cbn [fst snd body categories take_oids bump_oid set_categories].
    split; [reflexivity|].
    split; [apply in_or_app; right; now left|].
    split; [reflexivity|].
    split; [reflexivity|].
    intros x Hx. exists x. split; [apply in_or_app; now left | reflexivity].
Qed.

Lemma put_category_answers_stored_document_witness :
  exists d,
    body (snd (put_api_category "bifold" description_only 20%N two_categories))
    = BCategory d
    /\ In d (categories (fst (put_api_category "bifold" description_only 20%N
                                 two_categories)))
    /\ key_of d = over (c_id description_only) (Some "bifold")
    /\ updatedAt d = 20%N
    /\ (forall x, In x (categories two_categories) ->
        exists x', In x' (categories (fst (put_api_category "bifold" description_only
                                             20%N two_categories)))
                   /\ _id x' = _id x).
Proof.
  apply (put_category_answers_stored_document two_categories "bifold"
           description_only 20%N).
  reflexivity.
Defined.

(** A body that names another [id] moves the document: after a successful
    [PUT /api/category/:id] whose body names [new], different from the
    route's key, no document is stored under the route's key (given unique
    keys) and the answer is the document stored under [new]. *)
Theorem put_category_renames
        (st : Store) (id new : string) (req_body : CategoryFields) (now : Time) :
  unique_ids st ->
  c_id req_body = Some new -> new <> id ->
  status (snd (put_api_category id req_body now st)) = 200%N ->
  (forall d, In d (categories (fst (put_api_category id req_body now st))) ->
             key_of d <> Some id)
  /\ (exists d,
        body (snd (put_api_category id req_body now st)) = BCategory d
        /\ In d (categories (fst (put_api_category id req_body now st)))
        /\ key_of d = Some new).
Proof.
  unfold unique_ids. intros Huniq Hnew Hne.
  rewrite put_category_result. unfold Category.findOneAndUpdate.
  destruct (categorySchema_update_errors req_body) as [|p errs]; [|discriminate].
  destruct (split_first (has_id id) (categories st)) as [[[pre d] post]|] eqn:Hsp; cbv zeta.
  - destruct (split_first_some _ _ _ _ _ Hsp) as (Hcats & Hd & _).
    apply has_id_true in Hd.
    match goal with |- context [if ?c then _ else _] => destruct c end; [discriminate|].
    intros _. cbn [fst snd body categories take_oids set_categories].
    assert (Hkey' : key_of (mkDoc (_id d) (set_category (next_oid st) req_body (fields d))
                                  (createdAt d) now) = Some new).
    { unfold key_of. cbn [fields set_category c_id]. now rewrite Hnew. }
    split.
    + intros x Hx. apply in_app_or in Hx as [Hx | [<- | Hx]].
      * rewrite Hcats in Huniq. fold (key_of d) in Hd. rewrite <- Hd.
        apply (unique_key_elsewhere pre post); [assumption|].
        apply in_or_app. now left.
      * rewrite Hkey'. congruence.
      * rewrite Hcats in Huniq. fold (key_of d) in Hd. rewrite <- Hd.
        apply (unique_key_elsewhere pre post); [assumption|].
        apply in_or_app. now right.
    + eexists. split; [reflexivity|].
      split; [apply in_or_app; right; now left | exact Hkey'].
  - pose proof (split_first_is_none _ _ Hsp) as Hnone.
    match goal with |- context [if ?c then _ else _] => destruct c end; [discriminate|].
    intros _. cbn [fst snd body categories take_oids bump_oid set_categories].
    assert (Hkey' : key_of (mkDoc (next_oid st)
                              (products_default
                                 (set_category (N.succ (next_oid st)) req_body
                                    (mkCategory (Some id) None None None None None)))
                              now now) = Some new).
    { unfold key_of. cbn [fields products_default set_category c_id]. now rewrite Hnew. }
    split.
    + intros x Hx. apply in_app_or in Hx as [Hx | [<- | []]].
      * apply Hnone in Hx. unfold has_id in Hx. now apply opt_eqb_neq in Hx.
      * rewrite Hkey'. congruence.
    + eexists. split; [reflexivity|].
      split; [apply in_or_app; right; now left | exact Hkey'].
Qed.

Lemma put_category_renames_witness :
  (forall d, In d (categories (fst (put_api_category "bifold" windows_category 30%N
                                      one_category))) ->
             key_of d <> Some "bifold")
  /\ (exists d,
        body (snd (put_api_category "bifold" windows_category 30%N one_category))
        = BCategory d
        /\ In d (categories (fst (put_api_category "bifold" windows_category 30%N
                                    one_category)))
        /\ key_of d = Some "casement").
Proof.
  apply (put_category_renames one_category "bifold" "casement" windows_category 30%N).
  - unfold unique_ids. simpl. constructor; [intros [] | constructor].
  - reflexivity.
  - discriminate.
  - reflexivity.
Defined.

(** ** What a sync leaves *)

(** Whatever the collection held and whatever the outcome of the request,
    after [POST /api/products/sync] every stored category passes the schema's
    validation and no two share an [id], and after [POST /api/gallery/sync]
    every stored item is complete. *)
Theorem sync_leaves_clean_collection (st : Store) (clock : nat -> Time) :
  (forall b,
      categories_valid (fst (post_api_products_sync b clock st))
      /\ unique_ids (fst (post_api_products_sync b clock st)))
  /\ (forall b, galleries_complete (fst (post_api_gallery_sync b clock st))).
Proof.
  split.
  - intros b. rewrite products_sync_store.
    destruct (sync_categories b) as [l|].
    + split; [apply for_each_create_valid | apply for_each_create_unique]; constructor.
    + split; constructor.
  - intros [[items|]].
    + rewrite gallery_sync_result.
      pose proof (first_invalid_forallb items) as Hall.
      destruct (Gallery.first_invalid items) as [|p errs]; cbn [is_nil] in Hall.
      * unfold galleries_complete. cbn [fst galleries].
        apply stamp_all_complete. now symmetry.
      * constructor.
    + constructor.
Qed.
